(** * Layout.tsx: menu cache, path matcher, tab synchronisation, group expansion

    A shallow embedding of the stateful core of
    [ui/web/src/components/Layout.tsx]: the time-boxed menu cache
    ([fetchMenus]), the menu-to-group projection ([convertMenusToGroups]),
    the path matcher ([isPathActive]), the two tab effects (menu-load
    reconciliation and route change) and the route-change expansion effect.

    JavaScript strings are modelled as [string], the bytes of their UTF-8
    encoding; objects used as maps ([sessionStorage], [openGroups]) as
    [gmap string _] holding the keys they own; React state as explicit
    records threaded through the handlers. *)

From Stdlib Require Import ZArith Ascii String List Bool Lia.
From stdpp Require Import base option list gmap strings fin_maps pretty.

Local Open Scope string_scope.
Local Open Scope list_scope.

Set Warnings "-register-all,-clear-no-such-hyp,-uniform-inheritance".

(** ** JavaScript string primitives used by the component *)

Module JsString.

(** [s.startsWith(p)] *)
Definition startsWith (s p : string) : bool := String.prefix p s.

(** [s.endsWith(p)] *)
Definition endsWith (s p : string) : bool :=
  let n := String.length s in
  let k := String.length p in
  if (k <=? n)%nat then String.eqb (String.substring (n - k) k s) p else false.

(** [s.includes(p)] *)
Fixpoint includes (s p : string) : bool :=
  String.prefix p s ||
  match s with
  | EmptyString => false
  | String _ s' => includes s' p
  end.

(** [s.split('/')]: the pieces between separators, empty pieces kept. *)
Fixpoint splitAux (sep : ascii) (cur : string) (s : string) : list string :=
  match s with
  | EmptyString => [cur]
  | String c s' =>
      if Ascii.eqb c sep
      then cur :: splitAux sep EmptyString s'
      else splitAux sep (cur +:+ String c EmptyString) s'
  end.

Definition split (sep : ascii) (s : string) : list string :=
  splitAux sep EmptyString s.

(** Truthiness of a string: only the empty string is falsy. *)
Definition truthy (s : string) : bool := negb (String.eqb s "").

(** [s.split('/').filter(Boolean)] *)
Definition pathParts (s : string) : list string :=
  List.filter truthy (split "/"%char s).

(** [parts.join('/')] *)
Definition join (sep : string) (parts : list string) : string :=
  String.concat sep parts.

(** [x || d] on strings *)
Definition orElse (x d : string) : string := if truthy x then x else d.

(** ASCII lower-casing, for the case-insensitive extension test. *)
Definition lowerChar (c : ascii) : ascii :=
  let n := nat_of_ascii c in
  if ((65 <=? n) && (n <=? 90))%nat then ascii_of_nat (n + 32) else c.

Fixpoint toLowerCase (s : string) : string :=
  match s with
  | EmptyString => EmptyString
  | String c s' => String (lowerChar c) (toLowerCase s')
  end.

Definition isDigit (c : ascii) : bool :=
  let n := nat_of_ascii c in ((48 <=? n) && (n <=? 57))%nat.

(** The white space [parseInt] skips, one byte long: TAB, LF, VT, FF, CR
    and the space. *)
Definition isSpace (c : ascii) : bool :=
  let n := nat_of_ascii c in
  ((n =? 32) || ((9 <=? n) && (n <=? 13)))%nat.

(** The white space of three bytes: U+1680, U+2000 to U+200A, U+2028,
    U+2029, U+202F, U+205F, U+3000 and U+FEFF. *)
Definition isSpace3 (b0 b1 b2 : nat) : bool :=
  ((b0 =? 225) && (b1 =? 154) && (b2 =? 128) ||
   (b0 =? 226) && (b1 =? 128) &&
     (((128 <=? b2) && (b2 <=? 138)) || (b2 =? 168) || (b2 =? 169) || (b2 =? 175)) ||
   (b0 =? 226) && (b1 =? 129) && (b2 =? 159) ||
   (b0 =? 227) && (b1 =? 128) && (b2 =? 128) ||
   (b0 =? 239) && (b1 =? 187) && (b2 =? 191))%nat.

Fixpoint digitsAux (acc : Z) (seen : bool) (s : string) : option Z :=
  match s with
  | EmptyString => if seen then Some acc else None
  | String c s' =>
      if isDigit c
      then digitsAux (10 * acc + Z.of_nat (nat_of_ascii c - 48)) true s'
      else if seen then Some acc else None
  end.

(** Leading white space as [parseInt] strips it: the white space and line
    terminators of the language, which besides the ASCII blanks are U+00A0
    (bytes 194 160) and the three-byte characters of [isSpace3]. *)
Fixpoint skipSpaces (s : string) : string :=
  match s with
  | String c s1 =>
      let b0 := nat_of_ascii c in
      if isSpace c then skipSpaces s1
      else if (b0 =? 194)%nat then
        match s1 with
        | String c1 s2 =>
            if (nat_of_ascii c1 =? 160)%nat then skipSpaces s2 else s
        | EmptyString => s
        end
      else if ((b0 =? 225) || (b0 =? 226) || (b0 =? 227) || (b0 =? 239))%nat then
        match s1 with
        | String c1 (String c2 s3) =>
            if isSpace3 b0 (nat_of_ascii c1) (nat_of_ascii c2)
            then skipSpaces s3 else s
        | _ => s
        end
      else s
  | EmptyString => s
  end.

(** [parseInt(s, 10)]: leading white space, an optional sign, then the
    longest run of decimal digits; [None] stands for [NaN]. *)
Definition parseInt (s : string) : option Z :=
  match skipSpaces s with
  | String "-"%char s' => Z.opp <$> digitsAux 0 false s'
  | String "+"%char s' => digitsAux 0 false s'
  | s' => digitsAux 0 false s'
  end.

End JsString.

Import JsString.

Arguments truthy : simpl never.
Arguments parseInt : simpl never.

(** ** The server-delivered menu tree *)

(** Modelled from the spec: the [Menu] type of [api/permission] is not among
    the sources at hand. The records below carry the fields the component
    reads: [id], [path], [name], [hidden], [component], [children] and
    [meta] with [icon], [closeTab] and [title]. *)

Record MenuMeta := mkMeta {
  meta_icon : option string;
  meta_closeTab : bool;
  meta_title : option string;
}.

Inductive Menu := mkMenu {
  menu_id : string;
  menu_path : string;
  menu_name : string;
  menu_hidden : bool;
  menu_component : option string;
  menu_children : option (list Menu);
  menu_meta : option MenuMeta;
}.

(** [menu.children && menu.children.length > 0] *)
Definition hasChildren (m : Menu) : bool :=
  match menu_children m with
  | Some (_ :: _) => true
  | _ => false
  end.

(** [menu.component] as a condition *)
Definition hasComponent (m : Menu) : bool :=
  match menu_component m with
  | Some c => truthy c
  | None => false
  end.

(** [findMenuByPath]: depth-first, pre-order, hidden nodes included. *)
Fixpoint findMenu (path : string) (m : Menu) : option Menu :=
  if String.eqb (menu_path m) path then Some m
  else
    match menu_children m with
    | Some cs =>
        (fix go (l : list Menu) : option Menu :=
           match l with
           | [] => None
           | c :: l' =>
               match findMenu path c with
               | Some r => Some r
               | None => go l'
               end
           end) cs
    | None => None
    end.

Fixpoint findMenuByPath (path : string) (menuList : list Menu) : option Menu :=
  match menuList with
  | [] => None
  | m :: rest =>
      match findMenu path m with
      | Some r => Some r
      | None => findMenuByPath path rest
      end
  end.

(** ** Ambient browser state read by the component *)

Record Browser := mkBrowser {
  location_pathname : string;
  location_state_from : option string;     (* (location.state)?.from *)
  document_referrer : string;
  sessionStorage : gmap string string;
}.

(** ** PathMatcher: [isPathActive] *)

Section PathMatcher.

Variable env : Browser.

(** Tail of the [/ticket/:id] branch, after the navigation-state hint:
    referrer, then the stored hint, then the default origin. *)
Definition ticketOriginNoHint (menuPath : string) : bool :=
  let referrer := document_referrer env in
  if truthy referrer &&
     (includes referrer "/daily-workorders" || includes referrer "/fill-ticket-form")
  then String.eqb menuPath "/daily-workorders"
  else if truthy referrer && includes referrer "/my-tickets"
  then String.eqb menuPath "/my-tickets"
  else if truthy referrer && includes referrer "/all-tickets"
  then String.eqb menuPath "/all-tickets"
  else
    let storedFrom := sessionStorage env !! "ticket_detail_from" in
    match storedFrom with
    | Some s => if truthy s then String.eqb menuPath s
                else String.eqb menuPath "/my-tickets"
    | None => String.eqb menuPath "/my-tickets"
    end.

(** The [/ticket/:id] branch as a whole. *)
Definition ticketOrigin (menuPath : string) : bool :=
  let fromPath := location_state_from env in
  match fromPath with
  | Some f => if truthy f then String.eqb menuPath f
              else ticketOriginNoHint menuPath
  | None => ticketOriginNoHint menuPath
  end.

Definition isPathActive (menuPath currentPath : string) : bool :=
  if String.eqb menuPath currentPath then true
  else if String.eqb menuPath "/daily-workorders" &&
          startsWith currentPath "/fill-ticket-form" then true
  else if (String.eqb menuPath "/services" &&
           startsWith currentPath "/services/" &&
           negb (String.eqb currentPath "/services")) &&
          (let pathParts := pathParts currentPath in
           (length pathParts =? 2)%nat &&
           match pathParts !! 0%nat with
           | Some p0 => String.eqb p0 "services"
           | None => false
           end) then true
  else if String.eqb menuPath "/clusters" &&
          startsWith currentPath "/clusters/" &&
          endsWith currentPath "/status" then true
  else if String.eqb menuPath "/cluster-permissions" &&
          startsWith currentPath "/clusters/" &&
          endsWith currentPath "/permissions" then true
  else if (String.eqb menuPath "/k8s/deployments" &&
           startsWith currentPath "/k8s/deployments/" &&
           negb (String.eqb currentPath "/k8s/deployments")) &&
          (let pathParts := pathParts currentPath in
           (5 <=? length pathParts)%nat &&
           match pathParts !! 0%nat, pathParts !! 1%nat with
           | Some p0, Some p1 =>
               String.eqb p0 "k8s" && String.eqb p1 "deployments"
           | _, _ => false
           end) then true
  else if (startsWith menuPath "/k8s/" &&
           startsWith currentPath (menuPath +:+ "/") &&
           negb (String.eqb currentPath menuPath)) &&
          (let pathParts := pathParts currentPath in
           let menuPathParts := JsString.pathParts menuPath in
           (length menuPathParts <? length pathParts)%nat &&
           String.eqb (join "/" (take (length menuPathParts) pathParts))
                      (join "/" menuPathParts)) then true
  else if startsWith currentPath "/ticket/" then ticketOrigin menuPath
  else false.

End PathMatcher.


(** ** MenuTree: titles, items and groups *)

Section MenuTree.

(** External collaborators: the icon lookup of [utils/menuIcons] and the
    translation function [t(key, { defaultValue: '' })] of react-i18next. *)
Context {Icon : Type}.
Variable getIconByName : option string -> Icon.
Variable t : string -> string.

Inductive MenuItem := mkItem {
  item_id : string;
  item_icon : Icon;
  item_path : string;
  item_title : string;
  item_children : option (list MenuItem);
}.

Record MenuGroup := mkGroup {
  group_id : string;
  group_title : string;
  group_icon : Icon;
  group_items : list MenuItem;
}.

Definition getMenuTitle (menu : Menu) : string :=
  let groupKey := "menu.groups." +:+ menu_name menu in
  let groupTranslation := t groupKey in
  if truthy groupTranslation && negb (String.eqb groupTranslation groupKey)
  then groupTranslation
  else
    let menuKey := "menu." +:+ menu_name menu in
    let menuTranslation := t menuKey in
    if truthy menuTranslation && negb (String.eqb menuTranslation menuKey)
    then menuTranslation
    else menu_name menu.

(** [menu.meta?.icon] *)
Definition metaIcon (menu : Menu) : option string :=
  match menu_meta menu with
  | Some mt => meta_icon mt
  | None => None
  end.

Fixpoint convertMenuToMenuItem (menu : Menu) : MenuItem :=
  {| item_id := menu_id menu;
     item_icon := getIconByName (metaIcon menu);
     item_path := menu_path menu;
     item_title := getMenuTitle menu;
     item_children :=
       match menu_children menu with
       | Some (c :: cs) => Some (List.map convertMenuToMenuItem (c :: cs))
       | Some [] => Some []
       | None => None
       end |}.

Definition groupOfMenu (menu : Menu) : MenuGroup :=
  {| group_id := menu_id menu;
     group_title := getMenuTitle menu;
     group_icon := getIconByName (metaIcon menu);
     group_items :=
       if hasChildren menu
       then List.map convertMenuToMenuItem
              (List.filter (fun child => negb (menu_hidden child))
                           (default [] (menu_children menu)))
       else [convertMenuToMenuItem menu] |}.

Definition convertMenusToGroups (menus : list Menu) : list MenuGroup :=
  List.filter (fun group => (0 <? length (group_items group))%nat)
    (List.map groupOfMenu
       (List.filter (fun menu => negb (menu_hidden menu)) menus)).

End MenuTree.

Arguments MenuItem Icon : clear implicits.
Arguments MenuGroup Icon : clear implicits.

(** ** GroupExpansionTracker: the route-change expansion effect *)

Section GroupExpansion.

Context {Icon : Type}.
Variable env : Browser.

(** The predicate handed to [some] at both levels: the entry itself is
    active, or one of its direct children is. *)
Definition activeOrChildActive (item : MenuItem Icon) : bool :=
  if isPathActive env (item_path item) (location_pathname env) then true
  else
    match item_children item with
    | Some cs =>
        existsb (fun child =>
                   isPathActive env (item_path child) (location_pathname env)) cs
    | None => false
    end.

Definition hasActiveItem (group : MenuGroup Icon) : bool :=
  existsb activeOrChildActive (group_items group).

Definition hasActiveGrandchild (item : MenuItem Icon) : bool :=
  match item_children item with
  | Some (c :: cs) => existsb activeOrChildActive (c :: cs)
  | _ => false
  end.

(** The functional update passed to [setOpenGroups]. *)
Definition expandKey (key : string) (prev : gmap string bool) : gmap string bool :=
  match prev !! key with
  | Some true => prev
  | _ => <[key := true]> prev
  end.

Definition subGroupKey (group : MenuGroup Icon) (item : MenuItem Icon) : string :=
  group_id group +:+ "-" +:+ item_id item.

Definition expandGroups (menuGroups : list (MenuGroup Icon))
    (openGroups : gmap string bool) : gmap string bool :=
  foldl (fun og group =>
           if hasActiveItem group then expandKey (group_id group) og else og)
        openGroups menuGroups.

Definition expandSubGroups (menuGroups : list (MenuGroup Icon))
    (openGroups : gmap string bool) : gmap string bool :=
  foldl (fun og group =>
           foldl (fun og' item =>
                    if hasActiveGrandchild item
                    then expandKey (subGroupKey group item) og'
                    else og')
                 og (group_items group))
        openGroups menuGroups.

Definition expansionEffect (menuGroups : list (MenuGroup Icon))
    (openGroups : gmap string bool) : gmap string bool :=
  expandSubGroups menuGroups (expandGroups menuGroups openGroups).

End GroupExpansion.

(** What the [menus] state can hold. [JSON.parse] gives back whatever the
    cache text denotes and [setMenus] takes it as it is: a list of menus,
    or some other value (an object, a number, [null], an array with a
    [null] element, ...), of which only the JSON text is kept. *)
Inductive MenusValue :=
| MenuList (ms : list Menu)
| OtherValue (json : string).

Coercion MenuList : list >-> MenusValue.

(** ** MenuCache: [fetchMenus] *)

Module MenuCache.

Definition cacheKey : string := "user_menus_cache".
Definition cacheTimestampKey : string := "user_menus_cache_timestamp".
Definition cacheExpiry : Z := 10 * 60 * 1000.

(** What [getUserMenus()] does when awaited: it resolves with a response
    whose [data] may be missing, or it rejects. *)
Inductive RemoteOutcome :=
| Resolves (data : option (list Menu))
| Rejects.

(** Everything [fetchMenus] reads or writes. [remoteCalls] counts the
    calls of [getUserMenus]; [storageReadable] and [storageWritable] say
    whether [getItem] and [setItem] succeed or throw. *)
Record World := mkWorld {
  storage : gmap string string;
  storageReadable : bool;
  storageWritable : bool;
  clock : Z;
  latency : Z;
  server : RemoteOutcome;
  remoteCalls : nat;
  menus : MenusValue;
  openGroups : gmap string bool;
  loading : bool;
}.

Inductive JsError := StorageError | SyntaxError | TypeError | NetworkError.

Inductive Outcome (A : Type) :=
| Return (a : A)
| Throw (e : JsError).
Arguments Return {A} a.
Arguments Throw {A} e.

(** State and exceptions. *)
Definition Eff (A : Type) : Type := World -> Outcome A * World.

Definition ret {A} (a : A) : Eff A := fun w => (Return a, w).
Definition throw {A} (e : JsError) : Eff A := fun w => (Throw e, w).
Definition bind {A B} (m : Eff A) (k : A -> Eff B) : Eff B :=
  fun w => match m w with
           | (Return a, w') => k a w'
           | (Throw e, w') => (Throw e, w')
           end.
Definition tryCatch {A} (m : Eff A) (handler : JsError -> Eff A) : Eff A :=
  fun w => match m w with
           | (Return a, w') => (Return a, w')
           | (Throw e, w') => handler e w'
           end.
Definition tryFinally {A} (m : Eff A) (final : Eff unit) : Eff A :=
  fun w => match m w with
           | (r, w') =>
               match final w' with
               | (Return _, w'') => (r, w'')
               | (Throw e, w'') => (Throw e, w'')
               end
           end.

Notation "'let*' x ':=' m 'in' k" := (bind m (fun x => k))
  (at level 10, x name, m at level 100, k at level 200).
Notation "m ';;' k" := (bind m (fun _ => k))
  (at level 100, k at level 200, right associativity).

Definition getItem (key : string) : Eff (option string) :=
  fun w => if storageReadable w then (Return (storage w !! key), w)
           else (Throw StorageError, w).

Definition setItem (key value : string) : Eff unit :=
  fun w => if storageWritable w
           then (Return tt,
                 mkWorld (<[key := value]> (storage w)) (storageReadable w)
                   (storageWritable w) (clock w) (latency w) (server w)
                   (remoteCalls w) (menus w) (openGroups w) (loading w))
           else (Throw StorageError, w).

Definition dateNow : Eff Z := fun w => (Return (clock w), w).

Definition setMenus (ms : MenusValue) : Eff unit :=
  fun w => (Return tt,
            mkWorld (storage w) (storageReadable w) (storageWritable w)
              (clock w) (latency w) (server w) (remoteCalls w) ms
              (openGroups w) (loading w)).

Definition setOpenGroups (og : gmap string bool) : Eff unit :=
  fun w => (Return tt,
            mkWorld (storage w) (storageReadable w) (storageWritable w)
              (clock w) (latency w) (server w) (remoteCalls w) (menus w)
              og (loading w)).

Definition setLoading (b : bool) : Eff unit :=
  fun w => (Return tt,
            mkWorld (storage w) (storageReadable w) (storageWritable w)
              (clock w) (latency w) (server w) (remoteCalls w) (menus w)
              (openGroups w) b).

(** [await getUserMenus()]: one remote call; time passes while it is
    pending. *)
Definition getUserMenus : Eff (option (list Menu)) :=
  fun w =>
    let w' := mkWorld (storage w) (storageReadable w) (storageWritable w)
                (clock w + latency w) (latency w) (server w)
                (S (remoteCalls w)) (menus w) (openGroups w) (loading w) in
    match server w with
    | Resolves data => (Return data, w')
    | Rejects => (Throw NetworkError, w')
    end.

(** [menus.forEach(menu => initialOpenState[menu.id] = false)]: every id
    becomes a key the object owns. The one name for which an assignment
    does not create a key, [__proto__], is not taken for an id that the
    menu API delivers. *)
Definition initialOpenState (ms : list Menu) : gmap string bool :=
  foldl (fun acc menu => <[menu_id menu := false]> acc) ∅ ms.

(** A storage value as a condition: present and not the empty string. *)
Definition present (v : option string) : bool :=
  match v with
  | Some s => truthy s
  | None => false
  end.

Section Fetch.

(** [JSON.parse] ([None]: it throws a [SyntaxError]; [MenuList]: an array
    whose elements the code reads as menus; [OtherValue]: any other value)
    and [JSON.stringify]. *)
Variable JSON_parse : string -> option MenusValue.
Variable JSON_stringify : list Menu -> string.

Definition jsonParse (s : string) : Eff MenusValue :=
  match JSON_parse s with
  | Some v => ret v
  | None => throw SyntaxError
  end.

(** [const initialOpenState = {}; menus.forEach(menu => ...)]: on a value
    that is no list of menus the loop throws a [TypeError]. *)
Definition forEachMenu (v : MenusValue) : Eff (gmap string bool) :=
  match v with
  | MenuList ms => ret (initialOpenState ms)
  | OtherValue _ => throw TypeError
  end.

(** The cache block guarded by [!forceRefresh]; the result says whether
    the function has returned from inside it. *)
Definition readFreshCache : Eff bool :=
  tryCatch
    (let* cachedMenus := getItem cacheKey in
     let* cachedTimestamp := getItem cacheTimestampKey in
     if present cachedMenus && present cachedTimestamp then
       let timestamp := parseInt (default "" cachedTimestamp) in
       let* now := dateNow in
       if match timestamp with
          | Some ts => (now - ts <? cacheExpiry)%Z
          | None => false
          end
       then
         let* menus := jsonParse (default "" cachedMenus) in
         setMenus menus ;;
         let* initialOpenState := forEachMenu menus in
         setOpenGroups initialOpenState ;;
         setLoading false ;;
         ret true
       else ret false
     else ret false)
    (fun _ => ret false).

Definition fetchRemote : Eff unit :=
  tryFinally
    (tryCatch
       (setLoading true ;;
        let* response_data := getUserMenus in
        match response_data with
        | Some data =>
            setMenus data ;;
            tryCatch
              (setItem cacheKey (JSON_stringify data) ;;
               let* now := dateNow in
               setItem cacheTimestampKey (pretty now))
              (fun _ => ret tt) ;;
            setOpenGroups (initialOpenState data)
        | None => ret tt
        end)
       (fun _ =>
          tryCatch
            (let* cachedMenus := getItem cacheKey in
             if present cachedMenus then
               let* menus := jsonParse (default "" cachedMenus) in
               setMenus menus ;;
               let* initialOpenState := forEachMenu menus in
               setOpenGroups initialOpenState
             else setMenus [])
            (fun _ => setMenus [])))
    (setLoading false).

Definition fetchMenus (forceRefresh : bool) : Eff unit :=
  let* returned := (if negb forceRefresh then readFreshCache else ret false) in
  if returned then ret tt else fetchRemote.

End Fetch.

End MenuCache.

(** ** TabSynchronizer *)

Module TabSync.

(** Modelled from the spec: the [Tab] type of [contexts/TabsContext], which
    is not among the sources at hand. *)
Record Tab := mkTab {
  tab_id : string;
  tab_path : string;
  tab_title : string;
  tab_closable : bool;
}.

(** The tab collection and the pending-removal marker of the tabs
    context, together with the component's [prevPathRef]. *)
Record SyncState := mkSync {
  tabs : list Tab;
  pendingRemovedTabId : option string;
  prevPathRef : string;
}.

(** [path || 'home'], the tab id of a path. *)
Definition tabIdOf (path : string) : string := orElse path "home".

Definition hasId (id : string) (tab : Tab) : bool := String.eqb (tab_id tab) id.

Definition withTabs (st : SyncState) (ts : list Tab) : SyncState :=
  mkSync ts (pendingRemovedTabId st) (prevPathRef st).

Definition withPrevPath (st : SyncState) (p : string) : SyncState :=
  mkSync (tabs st) (pendingRemovedTabId st) p.

(** [{ ...menu, meta: { ...menu.meta, title: correctTitle } }] *)
Definition menuWithTitle (menu : Menu) (correctTitle : string) : Menu :=
  mkMenu (menu_id menu) (menu_path menu) (menu_name menu) (menu_hidden menu)
    (menu_component menu) (menu_children menu)
    (Some match menu_meta menu with
          | Some mt => mkMeta (meta_icon mt) (meta_closeTab mt) (Some correctTitle)
          | None => mkMeta None false (Some correctTitle)
          end).

(** [prevMenu.meta?.closeTab] *)
Definition closeOnLeave (menu : Menu) : bool :=
  match menu_meta menu with
  | Some mt => meta_closeTab mt
  | None => false
  end.

Section TabsContext.

(** Modelled from the spec: how [closable] is derived from the owning
    menu is decided in [contexts/TabsContext], which is not part of the
    sources at hand; it is kept abstract. *)
Variable menuClosable : Menu -> bool.

(** Modelled from the spec: the title [addTab] of [contexts/TabsContext]
    stores, the menu's [meta.title] when it carries one (the component
    passes the corrected title there) and its [name] otherwise. *)
Definition menuTabTitle (menu : Menu) : string :=
  match menu_meta menu with
  | Some (mkMeta _ _ (Some title)) => title
  | _ => menu_name menu
  end.

(** Modelled from the spec: [addTab] of [contexts/TabsContext]. A tab is
    keyed by its id, the menu path or ["home"]; a tab that exists has
    its title and closable flag brought up to date in place, a new one
    is appended, so the collection keeps insertion order. *)
Definition addTab (menu : Menu) (st : SyncState) : SyncState :=
  let tabId := tabIdOf (menu_path menu) in
  if existsb (hasId tabId) (tabs st)
  then withTabs st
         (List.map (fun tab =>
                      if hasId tabId tab
                      then mkTab (tab_id tab) (tab_path tab)
                             (menuTabTitle menu) (menuClosable menu)
                      else tab)
                   (tabs st))
  else withTabs st
         (tabs st ++ [mkTab tabId (menu_path menu) (menuTabTitle menu)
                        (menuClosable menu)]).

(** The tab a close by id acts on, and the collection without it. In
    the data model the id of a tab is its path and a path has one tab, so
    that at most one tab carries an id. A damaged collection can hold
    several; then it is the last of them, the one opened last. *)
Fixpoint lastTab (id : string) (ts : list Tab) : option Tab :=
  match ts with
  | [] => None
  | tab :: rest =>
      match lastTab id rest with
      | Some found => Some found
      | None => if hasId id tab then Some tab else None
      end
  end.

Fixpoint dropLast (id : string) (ts : list Tab) : list Tab :=
  match ts with
  | [] => []
  | tab :: rest =>
      if existsb (hasId id) rest then tab :: dropLast id rest
      else if hasId id tab then rest
      else tab :: rest
  end.

(** Modelled from the spec: [removeTab] of [contexts/TabsContext], the
    normal close of one tab. It is subject to the closable check, which
    the spec sets [forceRemoveTab] apart from as the removal that bypasses
    it, and it records the id as the pending removal. It takes one tab
    out of the collection, the last that carries the id: the
    deduplication of the reconciliation hands it the id of the tab to
    discard while another tab of the same path, hence with the same id,
    is to stay, so that of the tabs of a path one is left (section 4.4,
    step 4, of the spec). *)
Definition removeTab (id : string) (st : SyncState) : SyncState :=
  match lastTab id (tabs st) with
  | Some tab =>
      if tab_closable tab
      then mkSync (dropLast id (tabs st)) (Some id) (prevPathRef st)
      else st
  | None => st
  end.

(** Modelled from the spec: [forceRemoveTab] of [contexts/TabsContext]
    removes the tabs at a path whatever their closable flag. *)
Definition forceRemoveTab (path : string) (st : SyncState) : SyncState :=
  withTabs st
    (List.filter (fun tab => negb (String.eqb (tab_path tab) path)) (tabs st)).

(** Modelled from the spec: [cleanInvalidTabs] of [contexts/TabsContext]
    prunes the tabs whose path no longer resolves in the tree. *)
Definition cleanInvalidTabs (menus : list Menu) (st : SyncState) : SyncState :=
  withTabs st
    (List.filter (fun tab => bool_decide (is_Some (findMenuByPath (tab_path tab) menus)))
                 (tabs st)).

(** Modelled from the spec: [updateTabsClosable] of
    [contexts/TabsContext] recomputes the closable flag of every tab
    from the menu its path resolves to. *)
Definition updateTabsClosable (menus : list Menu) (st : SyncState) : SyncState :=
  withTabs st
    (List.map (fun tab =>
                 match findMenuByPath (tab_path tab) menus with
                 | Some menu => mkTab (tab_id tab) (tab_path tab) (tab_title tab)
                                  (menuClosable menu)
                 | None => tab
                 end)
              (tabs st)).

(** Modelled from the spec: [getPendingRemovedTabId] of
    [contexts/TabsContext] reads the marker. *)
Definition getPendingRemovedTabId (st : SyncState) : option string :=
  pendingRemovedTabId st.

(** Modelled from the spec: once a creation has been skipped because of
    the marker, the tabs context clears it. *)
Definition consumePendingRemoved (st : SyncState) : SyncState :=
  mkSync (tabs st) None (prevPathRef st).

(** *** The menu-load reconciliation effect *)

Variable t : string -> string.

(** Loop state of the title pass: [pathToTabMap], [tabsToUpdate] and
    the tabs context the removals act on. *)
Definition DedupAcc : Type :=
  gmap string Tab * list (Tab * Menu * string) * SyncState.

Definition dedupStep (menus : list Menu) (acc : DedupAcc) (tab : Tab) : DedupAcc :=
  let '(pathToTabMap, tabsToUpdate, st) := acc in
  if String.eqb (tab_path tab) "/dashboard" then acc
  else
    match findMenuByPath (tab_path tab) menus with
    | Some menu =>
        let correctTitle := getMenuTitle t menu in
        match pathToTabMap !! tab_path tab with
        | Some existingTab =>
            if String.eqb (tab_title existingTab) correctTitle &&
               negb (String.eqb (tab_title tab) correctTitle)
            then (pathToTabMap, tabsToUpdate, removeTab (tab_id tab) st)
            else if String.eqb (tab_title tab) correctTitle &&
                    negb (String.eqb (tab_title existingTab) correctTitle)
            then (<[tab_path tab := tab]> pathToTabMap, tabsToUpdate,
                  removeTab (tab_id existingTab) st)
            else (pathToTabMap, tabsToUpdate, removeTab (tab_id tab) st)
        | None =>
            (<[tab_path tab := tab]> pathToTabMap,
             if negb (String.eqb (tab_title tab) correctTitle)
             then tabsToUpdate ++ [(tab, menu, correctTitle)]
             else tabsToUpdate,
             st)
        end
    | None => acc
    end.

Definition applyTitleUpdates (tabsToUpdate : list (Tab * Menu * string))
    (st : SyncState) : SyncState :=
  foldl (fun s '(_, menu, correctTitle) =>
           addTab (menuWithTitle menu correctTitle) s)
        st tabsToUpdate.

(** The effect run when [menus] changes. [tabs st] is the collection the
    render saw; the context operations act on the live state in the
    order they are called. *)
Definition onMenuTreeLoaded (menus : list Menu) (st : SyncState) : SyncState :=
  if (0 <? length menus)%nat then
    let snapshot := tabs st in
    let st1 :=
      foldl (fun s tab =>
               if String.eqb (tab_path tab) "/dashboard"
               then forceRemoveTab "/dashboard" s else s)
            st snapshot in
    let st2 := cleanInvalidTabs menus st1 in
    if (0 <? length snapshot)%nat then
      let st3 := updateTabsClosable menus st2 in
      let '(_, tabsToUpdate, st4) :=
        foldl (dedupStep menus) (∅, [], st3) snapshot in
      applyTitleUpdates tabsToUpdate st4
    else st2
  else st.

(** *** The route-change effect *)

Definition staticExtensions : list string :=
  ["js"; "css"; "png"; "jpg"; "jpeg"; "gif"; "ico"; "svg"; "woff";
   "woff2"; "ttf"; "eot"; "map"].

(** [/\.(js|css|...|map)$/i] *)
Definition matchesStaticExtension (currentPath : string) : bool :=
  existsb (fun ext => endsWith (toLowerCase currentPath) ("." +:+ ext))
          staticExtensions.

Definition isStaticAsset (currentPath : string) : bool :=
  startsWith currentPath "/assets/" ||
  startsWith currentPath "/static/" ||
  matchesStaticExtension currentPath.

Definition isFullscreen (path : string) : bool :=
  String.eqb path "/terminal" ||
  String.eqb path "/template-editor" ||
  startsWith path "/template-editor/".

Definition onNavigate (currentPath : string) (menus : list Menu)
    (st : SyncState) : SyncState :=
  if isStaticAsset currentPath then st
  else if isFullscreen currentPath then st
  else
    let snapshot := tabs st in
    let st0 :=
      if String.eqb (prevPathRef st) "/terminal" ||
         String.eqb (prevPathRef st) "/template-editor" ||
         (truthy (prevPathRef st) &&
          startsWith (prevPathRef st) "/template-editor/")
      then withPrevPath st "" else st in
    let st1 :=
      if truthy (prevPathRef st0) &&
         negb (String.eqb (prevPathRef st0) currentPath)
      then
        match findMenuByPath (prevPathRef st0) menus with
        | Some prevMenu =>
            if closeOnLeave prevMenu
            then removeTab (orElse (prevPathRef st0) "home") st0
            else st0
        | None => st0
        end
      else st0 in
    let st2 := withPrevPath st1 currentPath in
    if String.eqb currentPath "/login" || String.eqb currentPath "/" then st2
    else if (0 <? length menus)%nat then
      match findMenuByPath currentPath menus with
      | Some menu =>
          if negb (hasComponent menu) then st2
          else
            let tabId := orElse currentPath "home" in
            let tabExists := existsb (hasId tabId) snapshot in
            let pendingRemovedTabId := getPendingRemovedTabId st2 in
            let isPendingRemovedTab :=
              bool_decide (pendingRemovedTabId = Some tabId) in
            if negb tabExists && negb isPendingRemovedTab
            then addTab menu st2
            else if isPendingRemovedTab then consumePendingRemoved st2
            else st2
      | None => st2
      end
    else st2.

(** *** Triggers *)

Inductive Trigger :=
| MenuTreeLoaded (tree : list Menu)
| Navigate (currentPath : string) (tree : list Menu).

Definition handle (st : SyncState) (e : Trigger) : SyncState :=
  match e with
  | MenuTreeLoaded tree => onMenuTreeLoaded tree st
  | Navigate currentPath tree => onNavigate currentPath tree st
  end.

Definition run (es : list Trigger) (st : SyncState) : SyncState :=
  foldl handle st es.

End TabsContext.

End TabSync.

(** ** The sidebar: toggles and what the render reads *)

Section Sidebar.

Context {Icon : Type}.

(** The state [openGroups] is a plain object: a key it does not own is
    looked up in [Object.prototype], whose names read as functions (or, for
    [__proto__], as an object): truthy, and neither [null] nor
    [undefined]. *)
Definition objectPrototypeKeys : list string :=
  ["constructor"; "hasOwnProperty"; "isPrototypeOf"; "propertyIsEnumerable";
   "toLocaleString"; "toString"; "valueOf"; "__proto__";
   "__defineGetter__"; "__defineSetter__"; "__lookupGetter__"; "__lookupSetter__"].

Definition inherited (key : string) : bool :=
  bool_decide (key ∈ objectPrototypeKeys).

(** [obj[key]] as a condition: the own entry, else whether the key is
    inherited. *)
Definition readTruthy (obj : gmap string bool) (key : string) : bool :=
  match obj !! key with
  | Some b => b
  | None => inherited key
  end.

(** [obj[key] ?? d] as a condition: the own entry; an inherited value is
    not nullish and is truthy; else the default. *)
Definition readOr (obj : gmap string bool) (key : string) (d : bool) : bool :=
  match obj !! key with
  | Some b => b
  | None => if inherited key then true else d
  end.

(** [handleGroupToggle]: [{ ...prev, [groupId]: !prev[groupId] }]; the
    computed key becomes an own entry. *)
Definition handleGroupToggle (groupId : string) (prev : gmap string bool) :
    gmap string bool :=
  <[groupId := negb (readTruthy prev groupId)]> prev.

(** The click handler of a collapsible entry: a path-less entry without
    children ignores the click, any other toggles its sub-group key. *)
Definition handleSubGroupClick (group : MenuGroup Icon) (menuItem : MenuItem Icon)
    (prev : gmap string bool) : gmap string bool :=
  let hasChildren :=
    match item_children menuItem with
    | Some (_ :: _) => true
    | _ => false
    end in
  let isGroupMenu := negb (truthy (item_path menuItem)) in
  if isGroupMenu && negb hasChildren then prev
  else handleGroupToggle (subGroupKey group menuItem) prev.

(** [openGroups[group.id] ?? true] *)
Definition groupIsOpen (openGroups : gmap string bool) (groupId : string) : bool :=
  readOr openGroups groupId true.

(** [openGroups[`${group.id}-${menuItem.id}`] ?? false] *)
Definition itemIsOpen (openGroups : gmap string bool) (key : string) : bool :=
  readOr openGroups key false.

(** A group rendered as a plain entry, without a header: a single leaf
    item, unless the group is one of the three that always show as a
    directory. *)
Definition rendersAsPlainItem (group : MenuGroup Icon) : bool :=
  negb (String.eqb (group_id group) "menu-home") &&
  negb (String.eqb (group_id group) "menu-config") &&
  negb (String.eqb (group_id group) "menu-dms") &&
  (length (group_items group) =? 1)%nat &&
  match group_items group with
  | item :: _ =>
      match item_children item with
      | Some (_ :: _) => false
      | _ => true
      end
  | [] => false
  end.

(** [!!(menuItem.path && isPathActive(menuItem.path, location.pathname))] *)
Definition isSelected (env : Browser) (menuItem : MenuItem Icon) : bool :=
  truthy (item_path menuItem) &&
  isPathActive env (item_path menuItem) (location_pathname env).

End Sidebar.

(** ** Logging out *)

(** The two storage scopes and the location, as [handleLogout] touches
    them. *)
Record Stores := mkStores {
  stores_local : gmap string string;
  stores_session : gmap string string;
  stores_pathname : string;
}.

(** [handleLogout]: the token, the user, the menu cache and the tab state
    are removed, then the shell goes to the login page. *)
Definition handleLogout (s : Stores) : Stores :=
  let local1 := delete "user" (delete "token" (stores_local s)) in
  let session1 :=
    delete "user_menus_cache_timestamp"
      (delete "user_menus_cache" (stores_session s)) in
  mkStores (delete "zjump_tabs_state" local1)
           (delete "zjump_tabs_state" session1)
           "/login".

(** ** The shell: locale changes, menu clicks and the events around the tabs *)

Module Shell.

Import TabSync.

(** The tabs, the session storage and the location, as the click handler
    touches them. *)
Record ShellState := mkShell {
  shell_sync : SyncState;
  shell_session : gmap string string;
  shell_pathname : string;
}.

Section Handlers.

Variable menuClosable : Menu -> bool.
Variable t : string -> string.

(** One round of the loop of the locale effect. *)
Definition localeStep (menus : list Menu)
    (tabsToUpdate : list (Tab * Menu * string)) (tab : Tab) :
    list (Tab * Menu * string) :=
  match findMenuByPath (tab_path tab) menus with
  | Some menu =>
      let correctTitle := getMenuTitle t menu in
      if negb (String.eqb (tab_title tab) correctTitle)
      then tabsToUpdate ++ [(tab, menu, correctTitle)]
      else tabsToUpdate
  | None => tabsToUpdate
  end.

(** The effect run when the language (or the menus, or the tabs) changes. *)
Definition onLocaleChanged (menus : list Menu) (st : SyncState) : SyncState :=
  if (0 <? length menus)%nat && (0 <? length (tabs st))%nat then
    applyTitleUpdates menuClosable (foldl (localeStep menus) [] (tabs st)) st
  else st.

(** [handleMenuClick]. Its local [findMenuIncludingHidden] is the same
    search as [findMenuByPath]; [navigate(path)] makes [path] the
    location. *)
Definition handleMenuClick (path : string) (menus : list Menu)
    (sh : ShellState) : ShellState :=
  if String.eqb path "/terminal" || String.eqb path "/template-editor" then
    mkShell (shell_sync sh)
      (<["terminal_previous_path" := shell_pathname sh]> (shell_session sh))
      path
  else if String.eqb path "/permissions" then
    mkShell (shell_sync sh)
      (<["permissions_previous_path" := shell_pathname sh]> (shell_session sh))
      path
  else
    let menu := findMenuByPath path menus in
    mkShell
      match menu with
      | Some m => if hasComponent m then addTab menuClosable m (shell_sync sh)
                  else shell_sync sh
      | None => shell_sync sh
      end
      (shell_session sh) path.

(** What can happen to the shell: the two effects of the claims, the locale
    effect, a click on a menu entry, and the [menusLoaded] event, whose
    handler prunes the tabs against the tree it carries. *)
Inductive ShellEvent :=
| Reconciled (tree : list Menu)
| Routed (currentPath : string) (tree : list Menu)
| LocaleChanged (tree : list Menu)
| Clicked (path : string) (tree : list Menu)
| MenusLoadedEvent (detail : list Menu).

Definition withSync (sh : ShellState) (st : SyncState) : ShellState :=
  mkShell st (shell_session sh) (shell_pathname sh).

Definition react (sh : ShellState) (e : ShellEvent) : ShellState :=
  match e with
  | Reconciled tree => withSync sh (onMenuTreeLoaded menuClosable t tree (shell_sync sh))
  | Routed currentPath tree =>
      withSync sh (onNavigate menuClosable currentPath tree (shell_sync sh))
  | LocaleChanged tree => withSync sh (onLocaleChanged tree (shell_sync sh))
  | Clicked path tree => handleMenuClick path tree sh
  | MenusLoadedEvent detail => withSync sh (cleanInvalidTabs detail (shell_sync sh))
  end.

Definition reactAll (es : list ShellEvent) (sh : ShellState) : ShellState :=
  foldl react sh es.

End Handlers.

End Shell.

(** * Specification-side notions and sample inputs *)

(** What the [/ticket/:id] branch reads of the ambient state. *)
Definition ticketContext (env : Browser) : option string * string * option string :=
  (location_state_from env, document_referrer env,
   sessionStorage env !! "ticket_detail_from").

(** No navigation-state hint, no referrer, no stored hint. *)
Definition noTicketHints (env : Browser) : Prop :=
  ticketContext env = (None, "", None).

(** A browser on a ticket page with nothing to tell where it came from. *)
Definition plainTicketPage : Browser :=
  mkBrowser "/ticket/55" None "" ∅.

(** The same page reached from the "all tickets" list. *)
Definition ticketFromAllTickets : Browser :=
  mkBrowser "/ticket/55" (Some "/all-tickets") "" ∅.

(** Same ticket context as [plainTicketPage], everything else different. *)
Definition otherPlainPage : Browser :=
  mkBrowser "/hosts" None "" {[ "terminal_previous_path" := "/hosts" ]}.

(** Observations of the menu cache, in the words of the specification. *)

(** The cached snapshot, whatever its age: the stored text can be read,
    is not empty and parses. *)
Definition cachedSnapshot (JSON_parse : string -> option MenusValue)
    (w : MenuCache.World) : option (list Menu) :=
  if MenuCache.storageReadable w then
    match MenuCache.storage w !! MenuCache.cacheKey with
    | Some s =>
        if truthy s then
          match JSON_parse s with
          | Some (MenuList ms) => Some ms
          | _ => None
          end
        else None
    | None => None
    end
  else None.

(** The age of the cache: now minus the stored timestamp. *)
Definition cacheAge (w : MenuCache.World) : option Z :=
  if MenuCache.storageReadable w then
    match MenuCache.storage w !! MenuCache.cacheTimestampKey with
    | Some s => match parseInt s with
                | Some ts => Some (MenuCache.clock w - ts)%Z
                | None => None
                end
    | None => None
    end
  else None.

(** The snapshot a load may answer from without a remote call: it exists,
    is younger than ten minutes, and no refresh is forced. *)
Definition freshSnapshot (JSON_parse : string -> option MenusValue)
    (forceRefresh : bool) (w : MenuCache.World) : option (list Menu) :=
  if forceRefresh then None
  else
    match cacheAge w with
    | Some age =>
        if (age <? MenuCache.cacheExpiry)%Z then cachedSnapshot JSON_parse w
        else None
    | None => None
    end.


(** The world after a load that answered with [ms] without a remote call. *)
Definition answered (ms : list Menu) (w : MenuCache.World) : MenuCache.World :=
  MenuCache.mkWorld (MenuCache.storage w) (MenuCache.storageReadable w)
    (MenuCache.storageWritable w) (MenuCache.clock w) (MenuCache.latency w)
    (MenuCache.server w) (MenuCache.remoteCalls w) ms
    (MenuCache.initialOpenState ms) false.

(** The world with another value in the [menus] state. *)
Definition withMenus (v : MenusValue) (w : MenuCache.World) : MenuCache.World :=
  MenuCache.mkWorld (MenuCache.storage w) (MenuCache.storageReadable w)
    (MenuCache.storageWritable w) (MenuCache.clock w) (MenuCache.latency w)
    (MenuCache.server w) (MenuCache.remoteCalls w) v
    (MenuCache.openGroups w) (MenuCache.loading w).

(** The JSON text of a value that a load installs from the cache before it
    finds that it cannot use it: no refresh is forced, the cache is
    readable and fresh, and its text parses to something that is no list
    of menus. *)
Definition freshOther (JSON_parse : string -> option MenusValue)
    (forceRefresh : bool) (w : MenuCache.World) : option string :=
  if forceRefresh then None
  else if MenuCache.storageReadable w then
    match MenuCache.storage w !! MenuCache.cacheKey,
          MenuCache.storage w !! MenuCache.cacheTimestampKey with
    | Some s, Some ts =>
        if truthy s && truthy ts then
          match parseInt ts with
          | Some n =>
              if (MenuCache.clock w - n <? MenuCache.cacheExpiry)%Z then
                match JSON_parse s with
                | Some (OtherValue json) => Some json
                | _ => None
                end
              else None
          | None => None
          end
        else None
    | _, _ => None
    end
  else None.

(** The world in which a load turns to the server: as it was, except for
    such a value in the [menus] state. *)
Definition afterCacheMiss (JSON_parse : string -> option MenusValue)
    (forceRefresh : bool) (w : MenuCache.World) : MenuCache.World :=
  match freshOther JSON_parse forceRefresh w with
  | Some json => withMenus (OtherValue json) w
  | None => w
  end.

(** A one-entry menu tree and a toy JSON codec for it, which also reads
    the empty object. *)
Definition sampleMenus : list Menu :=
  [mkMenu "menu-hosts" "/hosts" "hosts" false (Some "Hosts") None None].

Definition sampleParse (s : string) : option MenusValue :=
  if String.eqb s "[hosts]" then Some (MenuList sampleMenus)
  else if String.eqb s "{}" then Some (OtherValue "{}")
  else None.

Definition sampleStringify (ms : list Menu) : string := "[hosts]".

(** A tree with a visible leaf, a hidden leaf and a visible group one of
    whose two children is hidden. *)
Definition sampleLeaf : Menu :=
  mkMenu "menu-hosts" "/hosts" "hosts" false (Some "Hosts") None None.

Definition sampleTree : list Menu :=
  [sampleLeaf;
   mkMenu "menu-audit" "/audit" "audit" true (Some "Audit") None None;
   mkMenu "menu-tickets" "" "tickets" false None
     (Some [mkMenu "menu-my" "/my-tickets" "myTickets" false (Some "My") None None;
            mkMenu "menu-all" "/all-tickets" "allTickets" true (Some "All") None None])
     None].

(** A cache written at time 1000 and a server that is down. *)
Definition cachedOffline (now : Z) : MenuCache.World :=
  MenuCache.mkWorld
    {[ MenuCache.cacheKey := "[hosts]"; MenuCache.cacheTimestampKey := "1000" ]}
    true true now 5 MenuCache.Rejects 0 [] {[ "menu-hosts" := true ]} true.

(** Tabs as the data model has them: the id of a tab is derived from its
    path. *)
Definition tabKeyed (tab : TabSync.Tab) : Prop :=
  TabSync.tab_id tab = TabSync.tabIdOf (TabSync.tab_path tab).

(** The id identifies the path: it is derived from the path, and the path
    is not the literal ["home"], whose id would be the one the empty path
    gets. *)
Definition tabAddressed (tab : TabSync.Tab) : Prop :=
  tabKeyed tab /\ TabSync.tab_path tab <> "home".

(** At most one tab per path. *)
Definition onePerPath (ts : list TabSync.Tab) : Prop :=
  NoDup (List.map TabSync.tab_path ts).

(** The invariant of the tab collection: ids are derived from paths, and
    paths are distinct. *)
Definition tabsCoherent (ts : list TabSync.Tab) : Prop :=
  Forall tabKeyed ts /\ onePerPath ts.

(** A shell restored from storage: a stale title, a duplicate, a tab of the
    retired path and a tab the tree no longer knows. *)
Definition staleShell : TabSync.SyncState :=
  TabSync.mkSync
    [TabSync.mkTab "/hosts" "/hosts" "Host list" false;
     TabSync.mkTab "/dashboard" "/dashboard" "Dashboard" false;
     TabSync.mkTab "/hosts" "/hosts" "hosts" true;
     TabSync.mkTab "/gone" "/gone" "Gone" true]
    None "".

(** Two tabs that share the path [/reports], one titled as the tree has
    it and one with a stale title, and the tree. *)
Definition reportsTree : list Menu :=
  [mkMenu "menu-reports" "/reports" "Reports" false (Some "Reports") None None].

Definition duplicateReports : TabSync.SyncState :=
  TabSync.mkSync
    [TabSync.mkTab "/reports" "/reports" "Reports" true;
     TabSync.mkTab "/reports" "/reports" "Report" true]
    None "".



(** A fresh shell: no tab, no marker, no previous path. *)
Definition freshShell : TabSync.SyncState := TabSync.mkSync [] None "".

(** Notions used to describe what a reconciliation pass leaves behind,
    relative to a menu tree. *)

Section Reconciled.

Import TabSync.

Variable menuClosable : Menu -> bool.
Variable t : string -> string.
Variable menus : list Menu.


(** The tab survives eviction and pruning: its path is not the retired
    one and resolves in the tree. *)
Definition resolves (tab : Tab) : bool :=
  negb (String.eqb (tab_path tab) "/dashboard") &&
  bool_decide (is_Some (findMenuByPath (tab_path tab) menus)).





(** The number of tabs that carry an id. *)
Fixpoint countId (id : string) (l : list Tab) : nat :=
  match l with
  | [] => 0
  | tab :: rest => (if hasId id tab then 1 else 0) + countId id rest
  end.







Definition entryPath (e : Tab * Menu * string) : string := tab_path e.1.1.

(** The filter of the forced eviction. *)
Definition notRetired (tab : Tab) : bool :=
  negb (String.eqb (tab_path tab) "/dashboard").

(** The function [updateTabsClosable] maps over the tabs. *)
Definition reflag (tab : Tab) : Tab :=
  match findMenuByPath (tab_path tab) menus with
  | Some menu => mkTab (tab_id tab) (tab_path tab) (tab_title tab) (menuClosable menu)
  | None => tab
  end.

End Reconciled.

(** The one origin the [/ticket/:id] branch settles on: the navigation-state
    hint, else what the referrer tells, else the stored hint, else
    ["/my-tickets"]. *)
Definition ticketOriginPath (env : Browser) : string :=
  match location_state_from env with
  | Some f =>
      if truthy f then f
      else
        let referrer := document_referrer env in
        if truthy referrer &&
           (includes referrer "/daily-workorders" || includes referrer "/fill-ticket-form")
        then "/daily-workorders"
        else if truthy referrer && includes referrer "/my-tickets" then "/my-tickets"
        else if truthy referrer && includes referrer "/all-tickets" then "/all-tickets"
        else match sessionStorage env !! "ticket_detail_from" with
             | Some s => if truthy s then s else "/my-tickets"
             | None => "/my-tickets"
             end
  | None =>
      let referrer := document_referrer env in
      if truthy referrer &&
         (includes referrer "/daily-workorders" || includes referrer "/fill-ticket-form")
      then "/daily-workorders"
      else if truthy referrer && includes referrer "/my-tickets" then "/my-tickets"
      else if truthy referrer && includes referrer "/all-tickets" then "/all-tickets"
      else match sessionStorage env !! "ticket_detail_from" with
           | Some s => if truthy s then s else "/my-tickets"
           | None => "/my-tickets"
           end
  end.

(** A ticket page reached from a daily work order, with a stale stored hint. *)
Definition ticketFromWorkorder : Browser :=
  mkBrowser "/ticket/9" None "https://ops.example/daily-workorders?page=2"
    {[ "ticket_detail_from" := "/all-tickets" ]}.

(** The nodes of a menu tree in depth-first pre-order. *)
Fixpoint flattenMenu (m : Menu) : list Menu :=
  m :: match menu_children m with
       | Some cs =>
           (fix go (l : list Menu) : list Menu :=
              match l with
              | [] => []
              | c :: l' => flattenMenu c ++ go l'
              end) cs
       | None => []
       end.

Definition flattenMenus (l : list Menu) : list Menu :=
  List.flat_map flattenMenu l.

(** The entries of an item tree in depth-first pre-order. *)
Fixpoint flattenItem {Icon : Type} (item : MenuItem Icon) : list (MenuItem Icon) :=
  item :: match item_children item with
          | Some cs =>
              (fix go (l : list (MenuItem Icon)) : list (MenuItem Icon) :=
                 match l with
                 | [] => []
                 | c :: l' => flattenItem c ++ go l'
                 end) cs
          | None => []
          end.

(** The keys the route-change expansion sets: the ids of the groups that
    hold an active item, and the keys of the sub-groups that hold one. *)
Definition expandedKeys {Icon : Type} (env : Browser)
    (menuGroups : list (MenuGroup Icon)) : list string :=
  List.map group_id (List.filter (hasActiveItem env) menuGroups) ++
  List.flat_map
    (fun group =>
       List.map (subGroupKey group)
         (List.filter (hasActiveGrandchild env) (group_items group)))
    menuGroups.

(** A server that answers with the sample tree, seen at time [now] with an
    empty cache. *)
Definition onlineWorld (now : Z) : MenuCache.World :=
  MenuCache.mkWorld ∅ true true now 40 (MenuCache.Resolves (Some sampleMenus)) 0
    [] ∅ true.

(** Stores of a signed-in user with a menu cache. *)
Definition signedInStores : Stores :=
  mkStores {[ "token" := "jwt"; "user" := "{}" ]}
           {[ "user_menus_cache" := "[hosts]";
              "user_menus_cache_timestamp" := "1000" ]}
           "/hosts".

(** The entries the locale effect queues for one tab. *)
Definition localeEntries (t : string -> string) (menus : list Menu)
    (tab : TabSync.Tab) : list (TabSync.Tab * Menu * string) :=
  match findMenuByPath (TabSync.tab_path tab) menus with
  | Some menu =>
      if negb (String.eqb (TabSync.tab_title tab) (getMenuTitle t menu))
      then [(tab, menu, getMenuTitle t menu)] else []
  | None => []
  end.

(** Every tab that resolves in the tree carries the resolved title, except
    for the paths in [pend], whose correction is still queued. *)
Definition titlesPending (t : string -> string) (menus : list Menu)
    (pend : list string) (l : list TabSync.Tab) : Prop :=
  forall tab menu,
    In tab l -> findMenuByPath (TabSync.tab_path tab) menus = Some menu ->
    TabSync.tab_title tab = getMenuTitle t menu \/ In (TabSync.tab_path tab) pend.

(** A shell with a stale title on its one tab. *)
Definition staleTitleShell : TabSync.SyncState :=
  TabSync.mkSync [TabSync.mkTab "/hosts" "/hosts" "Host list" true] None "/hosts".

Definition clickShell : Shell.ShellState :=
  Shell.mkShell freshShell ∅ "/hosts".

(** The page the route effect remembers after a series of triggers: the
    last navigated path that is neither a static asset nor a fullscreen
    page. *)
Definition lastPage (init : string) (es : list TabSync.Trigger) : string :=
  foldl (fun p e =>
           match e with
           | TabSync.Navigate currentPath _ =>
               if TabSync.isStaticAsset currentPath || TabSync.isFullscreen currentPath
               then p else currentPath
           | TabSync.MenuTreeLoaded _ => p
           end) init es.

(** A tree with a page that closes its tab when it is left, and a shell
    that sits on that page. *)
Definition closingMenus : list Menu :=
  [mkMenu "menu-form" "/fill-ticket-form" "fillForm" false (Some "Form") None
     (Some (mkMeta None true None));
   sampleLeaf].

Definition leavingShell : TabSync.SyncState :=
  TabSync.mkSync
    [TabSync.mkTab "/fill-ticket-form" "/fill-ticket-form" "fillForm" true]
    None "/fill-ticket-form".

(** The three groups that always show with a header. *)
Definition alwaysDirectory (groupId : string) : bool :=
  String.eqb groupId "menu-home" || String.eqb groupId "menu-config" ||
  String.eqb groupId "menu-dms".

(** * Properties *)

(** ** Strings *)

Section StringFacts.

Lemma eqb_true_iff (a b : string) : String.eqb a b = true <-> a = b.
Proof. apply String.eqb_eq. Qed.

(** A prefix of a prefix is a prefix, also when the middle string is
    extended first. *)
Lemma prefix_of_extended (p m x c : string) :
  String.prefix p m = true ->
  String.prefix (m +:+ x) c = true ->
  String.prefix p c = true.
Proof.
  revert m c. induction p as [|a p IH]; intros m c Hpm Hmc.
  - destruct c; reflexivity.
  - destruct m as [|b m]; [discriminate|].
    destruct c as [|d c]; [discriminate|].
    simpl in Hpm, Hmc |- *.
    destruct (ascii_dec a b) as [->|]; [|discriminate].
    destruct (ascii_dec b d) as [->|]; [|discriminate].
    destruct (ascii_dec d d); [|congruence].
    eapply IH; eassumption.
Qed.

Lemma startsWith_extended (p m x c : string) :
  startsWith m p = true ->
  startsWith c (m +:+ x) = true ->
  startsWith c p = true.
Proof. unfold startsWith. apply prefix_of_extended. Qed.

End StringFacts.

(** ** PathMatcher *)

Section PathMatcherFacts.

Lemma ticketOriginNoHint_context (env1 env2 : Browser) (m : string) :
  document_referrer env1 = document_referrer env2 ->
  sessionStorage env1 !! "ticket_detail_from" =
    sessionStorage env2 !! "ticket_detail_from" ->
  ticketOriginNoHint env1 m = ticketOriginNoHint env2 m.
Proof.
  intros Href Hst. unfold ticketOriginNoHint. rewrite Href, Hst. reflexivity.
Qed.

Lemma ticketOrigin_context (env1 env2 : Browser) (m : string) :
  ticketContext env1 = ticketContext env2 ->
  ticketOrigin env1 m = ticketOrigin env2 m.
Proof.
  unfold ticketContext. intros Hctx. injection Hctx as Hfrom Href Hst.
  unfold ticketOrigin. rewrite Hfrom.
  rewrite (ticketOriginNoHint_context env1 env2 m Href Hst). reflexivity.
Qed.

(** C2, as amended: the result is determined by the two paths and by what
    the ticket branch reads of the browser (the navigation-state hint, the
    referrer and the stored hint); off the ticket-detail routes it is
    determined by the two paths alone. *)
Theorem isPathActive_determined_by_ticket_context
    (env1 env2 : Browser) (menuPath currentPath : string) :
  ticketContext env1 = ticketContext env2 \/
    startsWith currentPath "/ticket/" = false ->
  isPathActive env1 menuPath currentPath = isPathActive env2 menuPath currentPath.
Proof.
  intros Hctx. unfold isPathActive.
  repeat match goal with
         | |- (if ?b then true else _) = (if ?b then true else _) =>
             destruct b; [reflexivity|]
         end.
  destruct Hctx as [Hctx | Hoff].
  - destruct (startsWith currentPath "/ticket/"); [|reflexivity].
    apply ticketOrigin_context, Hctx.
  - rewrite Hoff. reflexivity.
Qed.

Lemma isPathActive_determined_by_ticket_context_witness :
  isPathActive plainTicketPage "/my-tickets" "/ticket/55" =
  isPathActive otherPlainPage "/my-tickets" "/ticket/55".
Proof.
  apply (isPathActive_determined_by_ticket_context plainTicketPage otherPlainPage).
  left. reflexivity.
Defined.

(** C2, as stated, fails: with the same two arguments the matcher answers
    differently once the navigation state differs. *)
Lemma isPathActive_reads_ambient_state :
  isPathActive ticketFromAllTickets "/all-tickets" "/ticket/55" = true /\
  isPathActive plainTicketPage "/all-tickets" "/ticket/55" = false.
Proof. split; reflexivity. Qed.

(** C7, as amended: the legacy alias is a prefix rule. For a current path
    other than the menu path itself and off the ticket-detail routes,
    ["/daily-workorders"] is active exactly when the current path starts
    with ["/fill-ticket-form"]. *)
Theorem daily_workorders_alias_is_prefix_rule (env : Browser) (currentPath : string) :
  currentPath <> "/daily-workorders" ->
  startsWith currentPath "/ticket/" = false ->
  isPathActive env "/daily-workorders" currentPath =
  startsWith currentPath "/fill-ticket-form".
Proof.
  intros Hne Hticket. unfold isPathActive.
  assert (String.eqb "/daily-workorders" currentPath = false) as ->
    by (apply String.eqb_neq; congruence).
  destruct (startsWith currentPath "/fill-ticket-form"); [reflexivity|].
  cbn [andb].
  change (String.eqb "/daily-workorders" "/services") with false.
  change (String.eqb "/daily-workorders" "/clusters") with false.
  change (String.eqb "/daily-workorders" "/cluster-permissions") with false.
  change (String.eqb "/daily-workorders" "/k8s/deployments") with false.
  change (startsWith "/daily-workorders" "/k8s/") with false.
  cbn [andb]. rewrite Hticket. reflexivity.
Qed.

Lemma daily_workorders_alias_is_prefix_rule_witness :
  isPathActive plainTicketPage "/daily-workorders" "/fill-ticket-form/123" =
  startsWith "/fill-ticket-form/123" "/fill-ticket-form".
Proof.
  apply daily_workorders_alias_is_prefix_rule; [discriminate | reflexivity].
Defined.

(** C7, as stated, fails: a path that merely starts with the aliased path
    activates the menu. *)
Lemma daily_workorders_alias_matches_longer_path :
  isPathActive plainTicketPage "/daily-workorders" "/fill-ticket-form/123" = true /\
  "/fill-ticket-form/123" <> "/fill-ticket-form".
Proof. split; [reflexivity | discriminate]. Qed.

(** C8, as amended: on ["/ticket/55"] without any hint, the active menu
    paths are ["/my-tickets"] and, by the exact-match rule, ["/ticket/55"]
    itself; every other menu path is inactive. *)
Theorem ticket_detail_without_hints (env : Browser) (menuPath : string) :
  noTicketHints env ->
  isPathActive env menuPath "/ticket/55" = true <->
  menuPath = "/my-tickets" \/ menuPath = "/ticket/55".
Proof.
  unfold noTicketHints, ticketContext. intros Hctx.
  injection Hctx as Hfrom Href Hst.
  unfold isPathActive.
  destruct (String.eqb menuPath "/ticket/55") eqn:Hexact.
  { apply String.eqb_eq in Hexact. tauto. }
  apply String.eqb_neq in Hexact.
  change (startsWith "/ticket/55" "/fill-ticket-form") with false.
  change (startsWith "/ticket/55" "/services/") with false.
  change (startsWith "/ticket/55" "/clusters/") with false.
  change (startsWith "/ticket/55" "/k8s/deployments/") with false.
  change (startsWith "/ticket/55" "/ticket/") with true.
  rewrite !andb_false_r. cbn [andb].
  destruct (startsWith menuPath "/k8s/") eqn:Hk8s.
  - destruct (startsWith "/ticket/55" (menuPath +:+ "/")) eqn:Hpre.
    + pose proof (startsWith_extended _ _ _ _ Hk8s Hpre) as Habs.
      discriminate Habs.
    + cbn [andb]. unfold ticketOrigin, ticketOriginNoHint.
      rewrite Hfrom, Href, Hst. unfold truthy. cbn.
      split; [intros H%eqb_true_iff; tauto|].
      intros [-> | ->]; [reflexivity | congruence].
  - cbn [andb]. unfold ticketOrigin, ticketOriginNoHint.
    rewrite Hfrom, Href, Hst. unfold truthy. cbn.
    split; [intros H%eqb_true_iff; tauto|].
    intros [-> | ->]; [reflexivity | congruence].
Qed.

Lemma ticket_detail_without_hints_witness :
  isPathActive plainTicketPage "/my-tickets" "/ticket/55" = true.
Proof.
  apply (ticket_detail_without_hints plainTicketPage "/my-tickets");
    [reflexivity | left; reflexivity].
Defined.

(** C8, as stated, fails: the current path itself is an active menu path
    other than ["/my-tickets"]. *)
Lemma ticket_detail_path_itself_active :
  isPathActive plainTicketPage "/ticket/55" "/ticket/55" = true /\
  "/ticket/55" <> "/my-tickets".
Proof. split; [reflexivity | discriminate]. Qed.

End PathMatcherFacts.

(** ** MenuTree *)

Section MenuTreeFacts.

Context {Icon : Type}.
Variable getIconByName : option string -> Icon.
Variable t : string -> string.

Lemma in_convertMenusToGroups (menus : list Menu) (g : MenuGroup Icon) :
  In g (convertMenusToGroups getIconByName t menus) <->
  exists menu, In menu menus /\ menu_hidden menu = false /\
               g = groupOfMenu getIconByName t menu /\ group_items g <> [].
Proof.
  unfold convertMenusToGroups. rewrite filter_In, in_map_iff. split.
  - intros [(menu & <- & Hin) Hlen]. apply filter_In in Hin as [Hin Hhid].
    exists menu. repeat split; auto.
    + destruct (menu_hidden menu); [discriminate | reflexivity].
    + intros Hnil. rewrite Hnil in Hlen. discriminate.
  - intros (menu & Hin & Hhid & -> & Hne). split.
    + exists menu. split; [reflexivity|]. apply filter_In. split; [assumption|].
      rewrite Hhid. reflexivity.
    + destruct (group_items (groupOfMenu getIconByName t menu)); [congruence | reflexivity].
Qed.

Lemma groupOf_items (menu : Menu) :
  (hasChildren menu = true /\
   group_items (groupOfMenu getIconByName t menu) =
     List.map (convertMenuToMenuItem getIconByName t)
       (List.filter (fun child => negb (menu_hidden child))
                    (default [] (menu_children menu)))) \/
  (hasChildren menu = false /\ group_items (groupOfMenu getIconByName t menu) = [convertMenuToMenuItem getIconByName t menu]).
Proof.
  unfold groupOfMenu. cbn [group_items].
  destruct (hasChildren menu); [left | right]; split; reflexivity.
Qed.

(** C6: every group built from a menu list has at least one item; it
    stems from a top-level node that is not hidden; its items are the
    node's children that are not hidden, or the node itself when it has
    no children; and every visible childless top-level node yields its
    singleton group. *)
Theorem convertMenusToGroups_shape (menus : list Menu) :
  (forall g, In g (convertMenusToGroups getIconByName t menus) -> (1 <= length (group_items g))%nat) /\
  (forall g, In g (convertMenusToGroups getIconByName t menus) ->
     exists menu,
       In menu menus /\ menu_hidden menu = false /\
       group_id g = menu_id menu /\
       ((hasChildren menu = true /\
         group_items g =
           List.map (convertMenuToMenuItem getIconByName t)
             (List.filter (fun child => negb (menu_hidden child))
                          (default [] (menu_children menu)))) \/
        (hasChildren menu = false /\ group_items g = [convertMenuToMenuItem getIconByName t menu]))) /\
  (forall menu, In menu menus -> menu_hidden menu = false ->
     hasChildren menu = false ->
     exists g, In g (convertMenusToGroups getIconByName t menus) /\ group_id g = menu_id menu /\
               group_items g = [convertMenuToMenuItem getIconByName t menu]).
Proof.
  split; [|split].
  - intros g Hg. apply in_convertMenusToGroups in Hg as (menu & _ & _ & _ & Hne).
    destruct (group_items g); [congruence | simpl; lia].
  - intros g Hg. apply in_convertMenusToGroups in Hg as (menu & Hin & Hhid & -> & _).
    exists menu. repeat split; auto. apply groupOf_items.
  - intros menu Hin Hhid Hleaf. exists (groupOfMenu getIconByName t menu).
    assert (group_items (groupOfMenu getIconByName t menu) = [convertMenuToMenuItem getIconByName t menu]) as Hitems.
    { destruct (groupOf_items menu) as [[Hc _] | [_ Hi]]; [congruence | exact Hi]. }
    split; [|split; [reflexivity | exact Hitems]].
    apply in_convertMenusToGroups. exists menu. repeat split; auto.
    rewrite Hitems. discriminate.
Qed.

End MenuTreeFacts.

Lemma convertMenusToGroups_shape_witness :
  exists g, In g (convertMenusToGroups (fun _ => tt) (fun _ => "") sampleTree) /\
            group_id g = menu_id sampleLeaf /\
            group_items g =
              [convertMenuToMenuItem (fun _ => tt) (fun _ => "") sampleLeaf].
Proof.
  apply (proj2 (proj2 (convertMenusToGroups_shape (fun _ => tt) (fun _ => "") sampleTree))
           sampleLeaf);
    [left; reflexivity | reflexivity | reflexivity].
Defined.

(** The sample tree yields two groups: the leaf as a singleton, and the
    group with its one visible child. *)
Example convertMenusToGroups_sample :
  List.map (fun g => (group_id g, List.map item_id (group_items g)))
    (convertMenusToGroups (fun _ => tt) (fun _ => "") sampleTree) =
  [("menu-hosts", ["menu-hosts"]); ("menu-tickets", ["menu-my"])].
Proof. reflexivity. Qed.

(** ** GroupExpansionTracker *)

Section GroupExpansionFacts.

Context {Icon : Type}.
Variable env : Browser.

Lemma expandKey_insert (key : string) (og : gmap string bool) :
  expandKey key og = <[key := true]> og.
Proof.
  unfold expandKey. destruct (og !! key) as [[|]|] eqn:Hk; try reflexivity.
  symmetry. apply insert_id. exact Hk.
Qed.

Lemma lookup_expandKey (key k : string) (og : gmap string bool) :
  expandKey key og !! k = if decide (key = k) then Some true else og !! k.
Proof. rewrite expandKey_insert. apply lookup_insert. Qed.

(** What a key looks like after the first loop. *)
Lemma lookup_expandGroups (menuGroups : list (MenuGroup Icon))
    (og : gmap string bool) (k : string) :
  expandGroups env menuGroups og !! k = og !! k \/
  (expandGroups env menuGroups og !! k = Some true /\
   exists group, In group menuGroups /\ k = group_id group /\
                 hasActiveItem env group = true).
Proof.
  unfold expandGroups. revert og.
  induction menuGroups as [|group rest IH]; intros og; [left; reflexivity|].
  cbn [foldl].
  destruct (hasActiveItem env group) eqn:Hact.
  - destruct (IH (expandKey (group_id group) og)) as [Hsame | (Htrue & g & Hin & Hk & Hg)].
    + rewrite Hsame, lookup_expandKey. destruct (decide (group_id group = k)) as [<-|].
      * right. split; [reflexivity|]. exists group. repeat split; auto. left; reflexivity.
      * left. reflexivity.
    + right. split; [exact Htrue|]. exists g. repeat split; auto. right; exact Hin.
  - destruct (IH og) as [Hsame | (Htrue & g & Hin & Hk & Hg)].
    + left. exact Hsame.
    + right. split; [exact Htrue|]. exists g. repeat split; auto. right; exact Hin.
Qed.

Lemma lookup_expandItems (group : MenuGroup Icon) (items : list (MenuItem Icon))
    (og : gmap string bool) (k : string) :
  let og' := foldl (fun og' item =>
                      if hasActiveGrandchild env item
                      then expandKey (subGroupKey group item) og'
                      else og') og items in
  og' !! k = og !! k \/
  (og' !! k = Some true /\
   exists item, In item items /\ k = subGroupKey group item /\
                hasActiveGrandchild env item = true).
Proof.
  revert og. induction items as [|item rest IH]; intros og; [left; reflexivity|].
  cbn [foldl]. cbn zeta in IH.
  destruct (hasActiveGrandchild env item) eqn:Hact.
  - destruct (IH (expandKey (subGroupKey group item) og))
      as [Hsame | (Htrue & i & Hin & Hk & Hi)].
    + rewrite Hsame, lookup_expandKey.
      destruct (decide (subGroupKey group item = k)) as [<-|].
      * right. split; [reflexivity|]. exists item. repeat split; auto. left; reflexivity.
      * left. reflexivity.
    + right. split; [exact Htrue|]. exists i. repeat split; auto. right; exact Hin.
  - destruct (IH og) as [Hsame | (Htrue & i & Hin & Hk & Hi)].
    + left. exact Hsame.
    + right. split; [exact Htrue|]. exists i. repeat split; auto. right; exact Hin.
Qed.

(** What a key looks like after the second loop. *)
Lemma lookup_expandSubGroups (menuGroups : list (MenuGroup Icon))
    (og : gmap string bool) (k : string) :
  expandSubGroups env menuGroups og !! k = og !! k \/
  (expandSubGroups env menuGroups og !! k = Some true /\
   exists group item,
     In group menuGroups /\ In item (group_items group) /\
     k = subGroupKey group item /\ hasActiveGrandchild env item = true).
Proof.
  unfold expandSubGroups. revert og.
  induction menuGroups as [|group rest IH]; intros og; [left; reflexivity|].
  cbn [foldl].
  match goal with
  | |- context [foldl _ (foldl ?f og (group_items group)) rest] =>
      set (og1 := foldl f og (group_items group))
  end.
  destruct (IH og1) as [Hsame | (Htrue & g & i & Hg & Hi & Hk & Hact)].
  - rewrite Hsame.
    destruct (lookup_expandItems group (group_items group) og k)
      as [Hsame1 | (Htrue1 & i & Hi & Hk & Hact)].
    + left. exact Hsame1.
    + right. split; [exact Htrue1|]. exists group, i. repeat split; auto.
      left; reflexivity.
  - right. split; [exact Htrue|]. exists g, i. repeat split; auto. right; exact Hg.
Qed.

(** C9: the route-change expansion only expands. A key that was open
    stays open; no key is set to [false]; and a key whose value changes
    becomes [true], was not [true] before, and is either the id of a
    group holding an active item or the key of a sub-group holding one. *)
Theorem expansionEffect_only_expands (menuGroups : list (MenuGroup Icon))
    (og : gmap string bool) (k : string) :
  let og' := expansionEffect env menuGroups og in
  (og !! k = Some true -> og' !! k = Some true) /\
  (og' !! k = Some false -> og !! k = Some false) /\
  (og' !! k <> og !! k ->
     og' !! k = Some true /\ og !! k <> Some true /\
     ((exists group, In group menuGroups /\ k = group_id group /\
                     hasActiveItem env group = true) \/
      (exists group item,
         In group menuGroups /\ In item (group_items group) /\
         k = subGroupKey group item /\ hasActiveGrandchild env item = true))).
Proof.
  cbn zeta. unfold expansionEffect.
  set (og1 := expandGroups env menuGroups og).
  destruct (lookup_expandSubGroups menuGroups og1 k)
    as [H2 | (H2 & g2 & i2 & Hg2 & Hi2 & Hk2 & Hact2)];
  destruct (lookup_expandGroups menuGroups og k)
    as [H1 | (H1 & g1 & Hg1 & Hk1 & Hact1)];
  fold og1 in H1; rewrite H2; try rewrite H1.
  - repeat split; auto; intros; congruence.
  - repeat split; auto; try congruence.
    left. exists g1. auto.
  - repeat split; auto; try congruence.
    right. exists g2, i2. auto.
  - repeat split; auto; try congruence.
    left. exists g1. auto.
Qed.

End GroupExpansionFacts.

Lemma expansionEffect_only_expands_witness :
  expansionEffect plainTicketPage
    (convertMenusToGroups (fun _ => tt) (fun _ => "") sampleTree)
    {[ "menu-hosts" := true ]} !! "menu-hosts" = Some true.
Proof.
  apply (proj1 (expansionEffect_only_expands plainTicketPage
                  (convertMenusToGroups (fun _ => tt) (fun _ => "") sampleTree)
                  {[ "menu-hosts" := true ]} "menu-hosts")).
  reflexivity.
Defined.

(** On a ticket page without hints the tickets group opens and the group
    the user had opened stays open. *)
Example expansionEffect_sample :
  expansionEffect plainTicketPage
    (convertMenusToGroups (fun _ => tt) (fun _ => "") sampleTree)
    {[ "menu-hosts" := true; "menu-tickets" := false ]} =
  {[ "menu-hosts" := true; "menu-tickets" := true ]}.
Proof. vm_compute. reflexivity. Qed.

(** ** MenuCache *)

Section MenuCacheFacts.

Import MenuCache.

Variable JSON_parse : string -> option MenusValue.
Variable JSON_stringify : list Menu -> string.

Lemma truthy_of_parseInt (s : string) (n : Z) :
  parseInt s = Some n -> truthy s = true.
Proof.
  intros Hs. unfold truthy. destruct (String.eqb s "") eqn:E; [|reflexivity].
  apply String.eqb_eq in E. subst s. discriminate Hs.
Qed.

(** Run an effectful computation symbolically, using the equations at
    hand for the reads it performs. *)
Ltac run_eff :=
  repeat (progress cbn ||
          match goal with
          | H : ?lhs = _ |- context [?lhs] => rewrite H
          end).

Ltac unfold_eff :=
  unfold fetchRemote, readFreshCache, tryFinally, tryCatch, bind, getItem,
    setItem, dateNow, jsonParse, forEachMenu, present, setLoading, getUserMenus,
    setMenus, setOpenGroups, ret, throw.

Lemma readFreshCache_hit (w : World) (ms : list Menu) :
  freshSnapshot JSON_parse false w = Some ms ->
  readFreshCache JSON_parse w = (Return true, answered ms w).
Proof.
  unfold freshSnapshot, cacheAge, cachedSnapshot.
  destruct (storageReadable w) eqn:Hread; [|discriminate].
  destruct (storage w !! cacheTimestampKey) as [ts|] eqn:Hk2; [|discriminate].
  destruct (parseInt ts) as [n|] eqn:Hts; [|discriminate].
  destruct (clock w - n <? cacheExpiry)%Z eqn:Hage; [|discriminate].
  destruct (storage w !! cacheKey) as [s|] eqn:Hk1; [|discriminate].
  destruct (truthy s) eqn:Hs; [|discriminate].
  destruct (JSON_parse s) as [[ms'|json]|] eqn:Hparse; [|discriminate|discriminate].
  intros [= ->]. pose proof (truthy_of_parseInt ts n Hts) as Hts'.
  unfold_eff. unfold answered. run_eff. reflexivity.
Qed.

(** When the cache cannot answer, the cache block leaves the world as it
    was, except for a value it installed before the loop over it failed. *)
Lemma readFreshCache_miss (w : World) :
  freshSnapshot JSON_parse false w = None ->
  readFreshCache JSON_parse w = (Return false, afterCacheMiss JSON_parse false w).
Proof.
  unfold freshSnapshot, cacheAge, cachedSnapshot, afterCacheMiss, freshOther.
  destruct (storageReadable w) eqn:Hread; [|intros _; unfold_eff; run_eff; reflexivity].
  destruct (storage w !! cacheKey) as [s|] eqn:Hk1;
    [|intros _; unfold_eff; run_eff; reflexivity].
  destruct (storage w !! cacheTimestampKey) as [ts|] eqn:Hk2;
    [|intros _; unfold_eff; run_eff; destruct (truthy s); reflexivity].
  destruct (truthy s) eqn:Hs; [|intros _; unfold_eff; run_eff; reflexivity].
  destruct (truthy ts) eqn:Hts';
    [|intros _; unfold_eff; run_eff; reflexivity].
  destruct (parseInt ts) as [n|] eqn:Hts;
    [|intros _; unfold_eff; run_eff; reflexivity].
  destruct (clock w - n <? cacheExpiry)%Z eqn:Hage;
    [|intros _; unfold_eff; run_eff; reflexivity].
  destruct (JSON_parse s) as [[ms|json]|] eqn:Hparse;
    [discriminate | |]; intros _; unfold_eff; unfold withMenus; run_eff; reflexivity.
Qed.

(** The detour through the cache touches nothing but the [menus] state. *)
Lemma afterCacheMiss_frame (forceRefresh : bool) (w : World) :
  let w0 := afterCacheMiss JSON_parse forceRefresh w in
  storage w0 = storage w /\ storageReadable w0 = storageReadable w /\
  storageWritable w0 = storageWritable w /\ clock w0 = clock w /\
  latency w0 = latency w /\ server w0 = server w /\
  remoteCalls w0 = remoteCalls w /\ openGroups w0 = openGroups w /\
  loading w0 = loading w.
Proof.
  unfold afterCacheMiss. destruct (freshOther JSON_parse forceRefresh w);
    repeat split; reflexivity.
Qed.

Lemma afterCacheMiss_snapshot (forceRefresh : bool) (w : World) :
  cachedSnapshot JSON_parse (afterCacheMiss JSON_parse forceRefresh w) =
  cachedSnapshot JSON_parse w.
Proof.
  destruct (afterCacheMiss_frame forceRefresh w) as (Hst & Hrd & _).
  unfold cachedSnapshot. rewrite Hst, Hrd. reflexivity.
Qed.

Lemma fetchMenus_hit (forceRefresh : bool) (w : World) (ms : list Menu) :
  freshSnapshot JSON_parse forceRefresh w = Some ms ->
  fetchMenus JSON_parse JSON_stringify forceRefresh w = (Return tt, answered ms w).
Proof.
  intros Hfresh. destruct forceRefresh; [discriminate|].
  unfold fetchMenus, bind. cbn [negb].
  rewrite (readFreshCache_hit w ms Hfresh). reflexivity.
Qed.

Lemma fetchMenus_miss (forceRefresh : bool) (w : World) :
  freshSnapshot JSON_parse forceRefresh w = None ->
  fetchMenus JSON_parse JSON_stringify forceRefresh w =
  fetchRemote JSON_parse JSON_stringify (afterCacheMiss JSON_parse forceRefresh w).
Proof.
  intros Hfresh. unfold fetchMenus, bind. destruct forceRefresh; cbn [negb].
  - reflexivity.
  - rewrite (readFreshCache_miss w Hfresh). reflexivity.
Qed.

(** A remote fetch always completes normally and costs one call. *)
Lemma fetchRemote_returns (w : World) :
  exists w', fetchRemote JSON_parse JSON_stringify w = (Return tt, w') /\
             remoteCalls w' = S (remoteCalls w).
Proof.
  destruct (server w) as [[data|]|] eqn:Hsrv.
  - destruct (storageWritable w) eqn:Hwr; unfold_eff; run_eff;
      eexists; split; reflexivity.
  - unfold_eff; run_eff; eexists; split; reflexivity.
  - destruct (storageReadable w) eqn:Hread;
      [|unfold_eff; run_eff; eexists; split; reflexivity].
    destruct (storage w !! cacheKey) as [s|] eqn:Hk1;
      [|unfold_eff; run_eff; eexists; split; reflexivity].
    destruct (truthy s) eqn:Hs;
      [|unfold_eff; run_eff; eexists; split; reflexivity].
    destruct (JSON_parse s) as [[ms|json]|] eqn:Hparse;
      unfold_eff; run_eff; eexists; split; reflexivity.
Qed.


(** A fetch that rejects falls back on the snapshot or on the empty tree. *)
Lemma fetchRemote_rejects (w : World) :
  server w = Rejects ->
  exists w', fetchRemote JSON_parse JSON_stringify w = (Return tt, w') /\
             menus w' = default [] (cachedSnapshot JSON_parse w) /\
             (forall ms, cachedSnapshot JSON_parse w = Some ms ->
                         openGroups w' = initialOpenState ms).
Proof.
  intros Hsrv. unfold cachedSnapshot.
  destruct (storageReadable w) eqn:Hread;
    [|unfold_eff; run_eff; eexists; (split; [reflexivity|]);
      split; [reflexivity | discriminate]].
  destruct (storage w !! cacheKey) as [s|] eqn:Hk1;
    [|unfold_eff; run_eff; eexists; (split; [reflexivity|]);
      split; [reflexivity | discriminate]].
  destruct (truthy s) eqn:Hs;
    [|unfold_eff; run_eff; eexists; (split; [reflexivity|]);
      split; [reflexivity | discriminate]].
  destruct (JSON_parse s) as [[ms|json]|] eqn:Hparse;
    unfold_eff; run_eff; eexists; (split; [reflexivity|]);
    (split; [reflexivity|]).
  - intros ms' [= <-]. reflexivity.
  - discriminate.
  - discriminate.
Qed.



(** C3: a load answers from a snapshot younger than ten minutes without a
    remote call when no refresh is forced; once the snapshot is ten minutes
    old or more, or a refresh is forced, the load performs exactly one
    remote call. *)
Theorem fetchMenus_cache_freshness (forceRefresh : bool) (w : World) :
  (forall ms age,
     forceRefresh = false ->
     cachedSnapshot JSON_parse w = Some ms ->
     cacheAge w = Some age -> (age < cacheExpiry)%Z ->
     exists w', fetchMenus JSON_parse JSON_stringify forceRefresh w = (Return tt, w') /\
                menus w' = ms /\ remoteCalls w' = remoteCalls w) /\
  (forall age,
     forceRefresh = true \/ (cacheAge w = Some age /\ (cacheExpiry <= age)%Z) ->
     exists w', fetchMenus JSON_parse JSON_stringify forceRefresh w = (Return tt, w') /\
                remoteCalls w' = S (remoteCalls w)).
Proof.
  split.
  - intros ms age -> Hsnap Hage Hlt.
    assert (freshSnapshot JSON_parse false w = Some ms) as Hfresh.
    { unfold freshSnapshot. rewrite Hage.
      apply Z.ltb_lt in Hlt. rewrite Hlt. exact Hsnap. }
    rewrite (fetchMenus_hit false w ms Hfresh).
    exists (answered ms w). repeat split; reflexivity.
  - intros age Hcase.
    assert (freshSnapshot JSON_parse forceRefresh w = None) as Hfresh.
    { unfold freshSnapshot. destruct Hcase as [-> | [Hage Hge]]; [reflexivity|].
      destruct forceRefresh; [reflexivity|]. rewrite Hage.
      apply Z.ltb_ge in Hge. rewrite Hge. reflexivity. }
    rewrite (fetchMenus_miss forceRefresh w Hfresh).
    destruct (fetchRemote_returns (afterCacheMiss JSON_parse forceRefresh w))
      as (w' & Hrun & Hcalls).
    destruct (afterCacheMiss_frame forceRefresh w) as (_ & _ & _ & _ & _ & _ & Hn & _).
    exists w'. split; [exact Hrun|]. rewrite Hcalls, Hn. reflexivity.
Qed.

(** C4: when the remote fetch fails the load still completes normally; the
    menu tree becomes the cached snapshot if there is one, whatever its
    age, and the empty tree otherwise. *)
Theorem fetchMenus_failure_degrades (forceRefresh : bool) (w : World) :
  server w = Rejects ->
  exists w', fetchMenus JSON_parse JSON_stringify forceRefresh w = (Return tt, w') /\
             menus w' = match cachedSnapshot JSON_parse w with
                        | Some ms => ms
                        | None => []
                        end.
Proof.
  intros Hsrv.
  destruct (freshSnapshot JSON_parse forceRefresh w) as [ms|] eqn:Hfresh.
  - rewrite (fetchMenus_hit forceRefresh w ms Hfresh).
    exists (answered ms w). split; [reflexivity|].
    unfold freshSnapshot in Hfresh. destruct forceRefresh; [discriminate|].
    destruct (cacheAge w) as [age|]; [|discriminate].
    destruct (age <? cacheExpiry)%Z; [|discriminate].
    rewrite Hfresh. reflexivity.
  - rewrite (fetchMenus_miss forceRefresh w Hfresh).
    destruct (afterCacheMiss_frame forceRefresh w) as (_ & _ & _ & _ & _ & Hs & _).
    destruct (fetchRemote_rejects (afterCacheMiss JSON_parse forceRefresh w))
      as (w' & Hrun & Hmenus & _); [rewrite Hs; exact Hsrv|].
    exists w'. split; [exact Hrun|]. rewrite Hmenus, afterCacheMiss_snapshot.
    destruct (cachedSnapshot JSON_parse w); reflexivity.
Qed.


End MenuCacheFacts.


Lemma fetchMenus_cache_freshness_witness :
  (exists w', MenuCache.fetchMenus sampleParse sampleStringify false (cachedOffline 2000) =
                (MenuCache.Return tt, w') /\
              MenuCache.menus w' = sampleMenus /\ MenuCache.remoteCalls w' = 0%nat) /\
  (exists w', MenuCache.fetchMenus sampleParse sampleStringify false (cachedOffline 601000) =
                (MenuCache.Return tt, w') /\
              MenuCache.remoteCalls w' = 1%nat).
Proof.
  split.
  - apply (proj1 (fetchMenus_cache_freshness sampleParse sampleStringify false
                    (cachedOffline 2000)) sampleMenus 1000%Z);
      [reflexivity | reflexivity | reflexivity | reflexivity].
  - apply (proj2 (fetchMenus_cache_freshness sampleParse sampleStringify false
                    (cachedOffline 601000)) 600000%Z).
    right. split; [reflexivity | discriminate].
Defined.

Lemma fetchMenus_failure_degrades_witness :
  exists w', MenuCache.fetchMenus sampleParse sampleStringify true (cachedOffline 601000) =
               (MenuCache.Return tt, w') /\
             MenuCache.menus w' = sampleMenus.
Proof.
  apply (fetchMenus_failure_degrades sampleParse sampleStringify true
           (cachedOffline 601000)).
  reflexivity.
Defined.



(** ** TabSynchronizer: one tab per path *)

Section OneTabPerPath.

Import TabSync.

Variable menuClosable : Menu -> bool.
Variable t : string -> string.

Lemma in_map_filter {A B} (f : A -> B) (g : A -> bool) (l : list A) (y : B) :
  In y (List.map f (List.filter g l)) -> In y (List.map f l).
Proof.
  rewrite !in_map_iff. intros (x & Hy & Hx). apply filter_In in Hx as [Hx _].
  exists x. split; assumption.
Qed.

Lemma NoDup_map_filter {A B} (f : A -> B) (g : A -> bool) (l : list A) :
  NoDup (List.map f l) -> NoDup (List.map f (List.filter g l)).
Proof.
  induction l as [|a l IH]; cbn; [trivial|].
  rewrite NoDup_cons. intros [Hnotin Hnd].
  destruct (g a); cbn; auto.
  apply NoDup_cons. split; auto.
  intros Hin. apply Hnotin. apply list_elem_of_In in Hin.
  apply list_elem_of_In. eapply in_map_filter; eassumption.
Qed.

Lemma NoDup_snoc {A} (l : list A) (x : A) :
  NoDup l -> ~ In x l -> NoDup (l ++ [x]).
Proof.
  intros Hnd Hnotin. apply NoDup_app. split; [exact Hnd|]. split.
  - intros y Hy Hyx. apply list_elem_of_singleton in Hyx. subst y.
    apply Hnotin, list_elem_of_In, Hy.
  - apply NoDup_singleton.
Qed.

Lemma foldl_preserves {A B} (P : A -> Prop) (f : A -> B -> A) (l : list B) (a : A) :
  (forall a x, P a -> P (f a x)) -> P a -> P (foldl f a l).
Proof.
  intros Hstep. revert a. induction l as [|x l IH]; cbn; auto.
Qed.

Lemma tabsCoherent_filter (g : Tab -> bool) (ts : list Tab) :
  tabsCoherent ts -> tabsCoherent (List.filter g ts).
Proof.
  intros [Hkeyed Hnd]. split.
  - rewrite List.Forall_forall in *. intros tab Hin.
    apply filter_In in Hin as [Hin _]. auto.
  - apply NoDup_map_filter, Hnd.
Qed.

Lemma tabsCoherent_map (g : Tab -> Tab) (ts : list Tab) :
  (forall tab, tab_id (g tab) = tab_id tab /\ tab_path (g tab) = tab_path tab) ->
  tabsCoherent ts -> tabsCoherent (List.map g ts).
Proof.
  intros Hg [Hkeyed Hnd]. split.
  - rewrite List.Forall_forall in *. intros tab Hin.
    apply in_map_iff in Hin as (tab0 & <- & Hin).
    unfold tabKeyed. destruct (Hg tab0) as [-> ->]. apply Hkeyed, Hin.
  - unfold onePerPath in *. rewrite List.map_map.
    erewrite List.map_ext; [exact Hnd|]. intros tab. apply Hg.
Qed.

Lemma existsb_hasId_false (id : string) (ts : list Tab) :
  existsb (hasId id) ts = false ->
  forall tab, In tab ts -> tab_id tab <> id.
Proof.
  intros Hex tab Hin Heq.
  assert (existsb (hasId id) ts = true) as Htrue.
  { apply existsb_exists. exists tab. split; [exact Hin|].
    unfold hasId. apply String.eqb_eq, Heq. }
  congruence.
Qed.

Lemma tabsCoherent_append (path title : string) (c : bool) (ts : list Tab) :
  tabsCoherent ts ->
  existsb (hasId (tabIdOf path)) ts = false ->
  tabsCoherent (ts ++ [mkTab (tabIdOf path) path title c]).
Proof.
  intros [Hkeyed Hnd] Hfresh. split.
  - apply List.Forall_app. split; [exact Hkeyed|].
    constructor; [reflexivity | constructor].
  - unfold onePerPath. rewrite List.map_app. cbn.
    apply NoDup_snoc; [exact Hnd|].
    intros Hin. apply in_map_iff in Hin as (tab & Hpath & Hin).
    apply (existsb_hasId_false _ _ Hfresh tab Hin).
    rewrite List.Forall_forall in Hkeyed. rewrite (Hkeyed tab Hin), Hpath.
    reflexivity.
Qed.

Lemma addTab_coherent (menu : Menu) (st : SyncState) :
  tabsCoherent (tabs st) -> tabsCoherent (tabs (addTab menuClosable menu st)).
Proof.
  intros Hco. unfold addTab.
  destruct (existsb (hasId (tabIdOf (menu_path menu))) (tabs st)) eqn:Hex; cbn.
  - apply tabsCoherent_map; [|exact Hco].
    intros tab. destruct (hasId (tabIdOf (menu_path menu)) tab); split; reflexivity.
  - apply tabsCoherent_append; assumption.
Qed.

(** The close takes one tab out and leaves the others where they are. *)
Lemma dropLast_In (id : string) (ts : list Tab) (x : Tab) :
  In x (dropLast id ts) -> In x ts.
Proof.
  induction ts as [|tab rest IH]; cbn [dropLast]; [trivial|].
  destruct (existsb (hasId id) rest).
  - intros [<- | Hx]; [left; reflexivity | right; apply IH, Hx].
  - destruct (hasId id tab); [intros Hx; right; exact Hx | trivial].
Qed.

Lemma dropLast_keeps (id : string) (ts : list Tab) (x : Tab) :
  In x ts -> hasId id x = false -> In x (dropLast id ts).
Proof.
  intros Hin Hx. induction ts as [|tab rest IH]; cbn [dropLast]; [destruct Hin|].
  destruct (existsb (hasId id) rest).
  - destruct Hin as [<- | Hin]; [left; reflexivity | right; apply IH, Hin].
  - destruct (hasId id tab) eqn:Hid; [|exact Hin].
    destruct Hin as [<- | Hin]; [congruence | exact Hin].
Qed.


Lemma dropLast_Forall (P : Tab -> Prop) (id : string) (ts : list Tab) :
  Forall P ts -> Forall P (dropLast id ts).
Proof.
  rewrite !List.Forall_forall. intros H x Hx. apply H, (dropLast_In id), Hx.
Qed.

Lemma dropLast_NoDup {B} (f : Tab -> B) (id : string) (ts : list Tab) :
  NoDup (List.map f ts) -> NoDup (List.map f (dropLast id ts)).
Proof.
  induction ts as [|tab rest IH]; cbn [dropLast List.map]; [trivial|].
  rewrite NoDup_cons. intros [Hnotin Hnd].
  destruct (existsb (hasId id) rest).
  - cbn [List.map]. apply NoDup_cons. split; [|apply IH, Hnd].
    intros Hin. apply Hnotin. apply list_elem_of_In in Hin. apply list_elem_of_In.
    apply in_map_iff in Hin as (x & Hx & Hin). apply in_map_iff.
    exists x. split; [exact Hx | apply (dropLast_In id), Hin].
  - destruct (hasId id tab); [exact Hnd|].
    cbn [List.map]. apply NoDup_cons. split; assumption.
Qed.

(** The tabs a close leaves: all of them, or all but the last one with
    the id. *)
Lemma removeTab_tabs (id : string) (st : SyncState) :
  tabs (removeTab id st) = tabs st \/
  tabs (removeTab id st) = dropLast id (tabs st).
Proof.
  unfold removeTab. destruct (lastTab id (tabs st)) as [tab|]; [|left; reflexivity].
  destruct (tab_closable tab); [right | left]; reflexivity.
Qed.

Lemma removeTab_coherent (id : string) (st : SyncState) :
  tabsCoherent (tabs st) -> tabsCoherent (tabs (removeTab id st)).
Proof.
  intros Hco. destruct (removeTab_tabs id st) as [-> | ->]; [exact Hco|].
  destruct Hco as [Hkeyed Hnd]. split.
  - apply dropLast_Forall, Hkeyed.
  - apply dropLast_NoDup, Hnd.
Qed.

Lemma forceRemoveTab_coherent (path : string) (st : SyncState) :
  tabsCoherent (tabs st) -> tabsCoherent (tabs (forceRemoveTab path st)).
Proof. intros Hco. cbn. apply tabsCoherent_filter, Hco. Qed.

Lemma cleanInvalidTabs_coherent (menus : list Menu) (st : SyncState) :
  tabsCoherent (tabs st) -> tabsCoherent (tabs (cleanInvalidTabs menus st)).
Proof. intros Hco. cbn. apply tabsCoherent_filter, Hco. Qed.

Lemma updateTabsClosable_coherent (menus : list Menu) (st : SyncState) :
  tabsCoherent (tabs st) ->
  tabsCoherent (tabs (updateTabsClosable menuClosable menus st)).
Proof.
  intros Hco. cbn. apply tabsCoherent_map; [|exact Hco].
  intros tab. destruct (findMenuByPath (tab_path tab) menus); split; reflexivity.
Qed.

Lemma dedupStep_coherent (menus : list Menu) (acc : DedupAcc) (tab : Tab) :
  tabsCoherent (tabs (acc.2)) ->
  tabsCoherent (tabs ((dedupStep t menus acc tab).2)).
Proof.
  destruct acc as [[pathToTabMap tabsToUpdate] st]. cbn [snd]. intros Hco.
  unfold dedupStep.
  destruct (String.eqb (tab_path tab) "/dashboard"); [exact Hco|].
  destruct (findMenuByPath (tab_path tab) menus) as [menu|]; [|exact Hco].
  destruct (pathToTabMap !! tab_path tab) as [existingTab|]; [|exact Hco].
  repeat match goal with
         | |- context [if ?b then _ else _] => destruct b
         end; cbn [snd]; apply removeTab_coherent, Hco.
Qed.

Lemma applyTitleUpdates_coherent (tabsToUpdate : list (Tab * Menu * string))
    (st : SyncState) :
  tabsCoherent (tabs st) ->
  tabsCoherent (tabs (applyTitleUpdates menuClosable tabsToUpdate st)).
Proof.
  unfold applyTitleUpdates.
  apply (foldl_preserves (fun s => tabsCoherent (tabs s))).
  intros s [[tab menu] correctTitle] Hco. apply addTab_coherent, Hco.
Qed.

Lemma onMenuTreeLoaded_coherent (menus : list Menu) (st : SyncState) :
  tabsCoherent (tabs st) ->
  tabsCoherent (tabs (onMenuTreeLoaded menuClosable t menus st)).
Proof.
  intros Hco. unfold onMenuTreeLoaded.
  destruct (0 <? length menus)%nat; [|exact Hco].
  match goal with
  | |- context [cleanInvalidTabs menus ?s1] =>
      assert (tabsCoherent (tabs (cleanInvalidTabs menus s1))) as Hclean
  end.
  { apply cleanInvalidTabs_coherent.
    apply (foldl_preserves (fun s => tabsCoherent (tabs s))); [|exact Hco].
    intros s tab Hs. destruct (String.eqb (tab_path tab) "/dashboard");
      [apply forceRemoveTab_coherent|]; exact Hs. }
  destruct (0 <? length (tabs st))%nat; [|exact Hclean].
  match goal with
  | |- context [foldl (dedupStep t menus) ?a0 ?l] =>
      pose proof (foldl_preserves (fun acc : DedupAcc => tabsCoherent (tabs (acc.2)))
                    (dedupStep t menus) l a0 (dedupStep_coherent menus)) as Hloop;
      destruct (foldl (dedupStep t menus) a0 l) as [[m u] st4]
  end.
  apply applyTitleUpdates_coherent. apply Hloop. cbn [snd].
  apply updateTabsClosable_coherent, Hclean.
Qed.

Lemma onNavigate_coherent (currentPath : string) (menus : list Menu) (st : SyncState) :
  tabsCoherent (tabs st) ->
  tabsCoherent (tabs (onNavigate menuClosable currentPath menus st)).
Proof.
  intros Hco. unfold onNavigate.
  destruct (isStaticAsset currentPath); [exact Hco|].
  destruct (isFullscreen currentPath); [exact Hco|].
  cbv zeta.
  match goal with
  | |- context [if ?c then withPrevPath st "" else st] =>
      assert (tabsCoherent (tabs (if c then withPrevPath st "" else st))) as H0
        by (destruct c; exact Hco);
      set (st0 := if c then withPrevPath st "" else st) in *
  end.
  match goal with
  | |- context [withPrevPath (if ?c then ?a else st0) currentPath] =>
      set (guard := c); set (st1 := if guard then a else st0)
  end.
  assert (tabsCoherent (tabs st1)) as H1.
  { subst st1. destruct guard; [|exact H0].
    destruct (findMenuByPath (prevPathRef st0) menus) as [prevMenu|]; [|exact H0].
    destruct (closeOnLeave prevMenu); [apply removeTab_coherent|]; exact H0. }
  clearbody st1.
  destruct (String.eqb currentPath "/login" || String.eqb currentPath "/"); [exact H1|].
  destruct (0 <? length menus)%nat; [|exact H1].
  destruct (findMenuByPath currentPath menus) as [menu|]; [|exact H1].
  destruct (negb (hasComponent menu)); [exact H1|].
  destruct (negb (existsb _ (tabs st)) && negb _).
  - apply addTab_coherent. exact H1.
  - destruct (bool_decide _); exact H1.
Qed.



End OneTabPerPath.

(** ** TabSynchronizer: the reconciliation is idempotent *)

Section Idempotence.

Import TabSync.

Variable menuClosable : Menu -> bool.
Variable t : string -> string.
Variable menus : list Menu.

(** The closable flag of a menu does not depend on the title the component
    puts into [meta.title]. *)
Hypothesis menuClosable_title :
  forall menu title, menuClosable (menuWithTitle menu title) = menuClosable menu.

Lemma findMenu_path : forall (m : Menu) (path : string) (r : Menu),
  findMenu path m = Some r -> menu_path r = path.
Proof.
  fix IH 1. intros [id mpath name hid comp children meta] path r. cbn.
  destruct (String.eqb mpath path) eqn:E.
  { intros [= <-]. cbn. apply String.eqb_eq, E. }
  destruct children as [cs|]; [|discriminate].
  induction cs as [|c cs IHcs]; [discriminate|].
  destruct (findMenu path c) as [r'|] eqn:Hc.
  - intros [= <-]. eapply IH, Hc.
  - exact IHcs.
Qed.

Lemma findMenuByPath_path (path : string) (l : list Menu) (r : Menu) :
  findMenuByPath path l = Some r -> menu_path r = path.
Proof.
  induction l as [|m l IH]; cbn; [discriminate|].
  destruct (findMenu path m) as [r'|] eqn:Hm.
  - intros [= <-]. eapply findMenu_path, Hm.
  - exact IH.
Qed.

Lemma tabIdOf_inj (p q : string) :
  p <> "home" -> q <> "home" -> tabIdOf p = tabIdOf q -> p = q.
Proof.
  unfold tabIdOf, orElse, truthy. intros Hp Hq.
  destruct (String.eqb p "") eqn:Ep, (String.eqb q "") eqn:Eq; cbn.
  - apply String.eqb_eq in Ep, Eq. congruence.
  - intros H. congruence.
  - intros H. congruence.
  - trivial.
Qed.

(** *** Filters *)

Lemma filter_all {A} (g : A -> bool) (l : list A) :
  (forall x, In x l -> g x = true) -> List.filter g l = l.
Proof.
  induction l as [|a l IH]; cbn; intros Hall; [reflexivity|].
  rewrite (Hall a (or_introl eq_refl)). f_equal. apply IH.
  intros x Hx. apply Hall. right. exact Hx.
Qed.

Lemma filter_twice {A} (g h : A -> bool) (l : list A) :
  List.filter g (List.filter h l) = List.filter (fun x => h x && g x) l.
Proof.
  induction l as [|a l IH]; cbn; [reflexivity|].
  destruct (h a); cbn; [destruct (g a)|]; rewrite IH; reflexivity.
Qed.

Lemma Forall_filter_keeps {A} (P : A -> Prop) (g : A -> bool) (l : list A) :
  Forall P l -> Forall P (List.filter g l).
Proof.
  rewrite !List.Forall_forall. intros Hall x Hx.
  apply filter_In in Hx as [Hx _]. auto.
Qed.

(** *** Eviction, pruning and re-flagging *)

Lemma evict_tabs (l : list Tab) (st : SyncState) :
  tabs (foldl (fun s tab =>
                 if String.eqb (tab_path tab) "/dashboard"
                 then forceRemoveTab "/dashboard" s else s) st l) =
  if existsb (fun tab => String.eqb (tab_path tab) "/dashboard") l
  then List.filter notRetired (tabs st) else tabs st.
Proof.
  revert st. induction l as [|tab l IH]; intros st; cbn [foldl existsb]; [reflexivity|].
  rewrite IH. destruct (String.eqb (tab_path tab) "/dashboard"); cbn [orb].
  - cbn [forceRemoveTab withTabs tabs]. fold notRetired.
    rewrite filter_twice.
    destruct (existsb _ l); [|reflexivity].
    apply List.filter_ext. intros x. destruct (notRetired x); reflexivity.
  - reflexivity.
Qed.

Lemma evict_own_tabs (st : SyncState) :
  tabs (foldl (fun s tab =>
                 if String.eqb (tab_path tab) "/dashboard"
                 then forceRemoveTab "/dashboard" s else s) st (tabs st)) =
  List.filter notRetired (tabs st).
Proof.
  rewrite evict_tabs.
  destruct (existsb _ (tabs st)) eqn:Hex; [reflexivity|].
  symmetry. apply filter_all. intros x Hx. unfold notRetired.
  destruct (String.eqb (tab_path x) "/dashboard") eqn:E; [|reflexivity].
  assert (existsb (fun tab => String.eqb (tab_path tab) "/dashboard") (tabs st) = true)
    as Htrue by (apply existsb_exists; exists x; auto).
  congruence.
Qed.

Lemma prepared_tabs (st : SyncState) :
  tabs (updateTabsClosable menuClosable menus
          (cleanInvalidTabs menus
             (foldl (fun s tab =>
                       if String.eqb (tab_path tab) "/dashboard"
                       then forceRemoveTab "/dashboard" s else s) st (tabs st)))) =
  List.map (reflag menuClosable menus) (List.filter (resolves menus) (tabs st)).
Proof.
  cbn [updateTabsClosable cleanInvalidTabs withTabs tabs].
  rewrite evict_own_tabs, filter_twice. reflexivity.
Qed.

Lemma pruned_tabs (st : SyncState) :
  tabs (cleanInvalidTabs menus
          (foldl (fun s tab =>
                    if String.eqb (tab_path tab) "/dashboard"
                    then forceRemoveTab "/dashboard" s else s) st (tabs st))) =
  List.filter (resolves menus) (tabs st).
Proof.
  cbn [cleanInvalidTabs withTabs tabs].
  rewrite evict_own_tabs, filter_twice. reflexivity.
Qed.




(** *** The normal close, seen by path *)



Lemma lastTab_Some (id : string) (l : list Tab) (tab : Tab) :
  lastTab id l = Some tab -> In tab l /\ hasId id tab = true.
Proof.
  induction l as [|x rest IH]; cbn [lastTab]; [discriminate|].
  destruct (lastTab id rest) as [found|].
  - intros [= <-]. destruct (IH eq_refl) as [Hin Hid].
    split; [right; exact Hin | exact Hid].
  - destruct (hasId id x) eqn:Hx; [|discriminate].
    intros [= <-]. split; [left; reflexivity | exact Hx].
Qed.




(** *** Closing the last tab of an id, again and again *)










(** *** The title pass *)





(** *** The loop in closed form *)

Lemma reflag_path (tab : Tab) :
  tab_path (reflag menuClosable menus tab) = tab_path tab.
Proof. unfold reflag. destruct (findMenuByPath _ _); reflexivity. Qed.









(** *** What the loop leaves is settled up to the queued corrections *)



(** *** Applying the queued title corrections *)

Lemma menuTabTitle_withTitle (menu : Menu) (title : string) :
  menuTabTitle (menuWithTitle menu title) = title.
Proof. unfold menuTabTitle, menuWithTitle. cbn. destruct (menu_meta menu); reflexivity. Qed.






(** *** One pass settles the collection; a settled collection is a fixed point *)




(** *** What one pass leaves of a path *)







End Idempotence.



(** ** TabSynchronizer: what a sequence of events leaves in the collection *)

Section TabCollection.

Import TabSync.

Variable menuClosable : Menu -> bool.
Variable t : string -> string.


End TabCollection.


(** The two tabs of [/reports], reconciled: the one with the stale title
    is gone when the path can be closed, and both stay when it cannot. *)
Example duplicateReports_reconciled :
  TabSync.tabs
    (TabSync.onMenuTreeLoaded (fun _ => true) (fun _ => "") reportsTree
       duplicateReports) =
  [TabSync.mkTab "/reports" "/reports" "Reports" true].
Proof. reflexivity. Qed.


(** * Further properties of the component *)

(** ** Strings, continued *)

Section MoreStringFacts.

Lemma splitAux_at_separator (sep : ascii) (a b cur : string) :
  splitAux sep cur (a +:+ String sep b) =
  splitAux sep cur a ++ splitAux sep EmptyString b.
Proof.
  revert cur. induction a as [|c a IH]; intros cur.
  - change (splitAux sep cur (EmptyString +:+ String sep b))
      with (if Ascii.eqb sep sep
            then cur :: splitAux sep EmptyString b
            else splitAux sep (cur +:+ String sep EmptyString) b).
    rewrite Ascii.eqb_refl. reflexivity.
  - change (splitAux sep cur (String c a +:+ String sep b))
      with (if Ascii.eqb c sep
            then cur :: splitAux sep EmptyString (a +:+ String sep b)
            else splitAux sep (cur +:+ String c EmptyString) (a +:+ String sep b)).
    change (splitAux sep cur (String c a))
      with (if Ascii.eqb c sep
            then cur :: splitAux sep EmptyString a
            else splitAux sep (cur +:+ String c EmptyString) a).
    destruct (Ascii.eqb c sep); rewrite IH; reflexivity.
Qed.

(** The segments of [a/b] are those of [a] followed by those of [b]. *)
Lemma pathParts_slash (a b : string) :
  pathParts (a +:+ "/" +:+ b) = pathParts a ++ pathParts b.
Proof.
  unfold pathParts, split.
  change (a +:+ "/" +:+ b) with (a +:+ String "/"%char b).
  rewrite splitAux_at_separator. apply List.filter_app.
Qed.

Lemma prefix_refl_app (p x : string) : String.prefix p (p +:+ x) = true.
Proof.
  induction p as [|a p IH]; simpl; [destruct x; reflexivity|].
  destruct (ascii_dec a a); [exact IH | congruence].
Qed.

Lemma prefix_app_r (p m x : string) :
  String.prefix p m = true -> String.prefix p (m +:+ x) = true.
Proof.
  revert m. induction p as [|a p IH]; intros m; simpl.
  - intros _. destruct (m +:+ x); reflexivity.
  - destruct m as [|b m]; [discriminate|]. simpl.
    destruct (ascii_dec a b); [apply IH | discriminate].
Qed.

(** Two prefixes of one string are comparable. *)
Lemma prefix_comparable (p q c : string) :
  String.prefix p c = true -> String.prefix q c = true ->
  String.prefix p q = true \/ String.prefix q p = true.
Proof.
  revert p q. induction c as [|d c IH]; intros p q.
  - destruct p; [|discriminate]. intros _ _. left. destruct q; reflexivity.
  - destruct p as [|a p]; [intros _ _; left; destruct q; reflexivity|].
    destruct q as [|b q]; [intros _ _; right; reflexivity|].
    simpl. destruct (ascii_dec a d) as [->|]; [|discriminate].
    destruct (ascii_dec b d) as [->|]; [|discriminate].
    destruct (ascii_dec d d); [|congruence]. apply IH.
Qed.

Lemma startsWith_incomparable (p q c : string) :
  String.prefix p q = false -> String.prefix q p = false ->
  startsWith c p = true -> startsWith c q = false.
Proof.
  unfold startsWith. intros Hpq Hqp Hp.
  destruct (String.prefix q c) eqn:Hq; [|reflexivity].
  destruct (prefix_comparable p q c Hp Hq); congruence.
Qed.

Lemma length_append (a b : string) :
  String.length (a +:+ b) = (String.length a + String.length b)%nat.
Proof. induction a as [|c a IH]; simpl; [reflexivity | rewrite IH; reflexivity]. Qed.

Lemma eqb_longer (m x : string) (c : ascii) :
  String.eqb m (m +:+ String c x) = false.
Proof.
  apply String.eqb_neq. intros Heq.
  apply (f_equal String.length) in Heq.
  rewrite length_append in Heq. simpl in Heq. lia.
Qed.

End MoreStringFacts.

(** ** Strings: suffixes *)

Section SuffixFacts.

Lemma substring_all (s : string) : String.substring 0 (String.length s) s = s.
Proof. induction s as [|a s IH]; simpl; [reflexivity | rewrite IH; reflexivity]. Qed.

Lemma substring_from_start (c : string) :
  forall i, (i <= String.length c)%nat ->
    c = String.substring 0 i c +:+ String.substring i (String.length c - i) c.
Proof.
  induction c as [|a c IH]; intros i Hi.
  - destruct i; reflexivity.
  - destruct i as [|i].
    + rewrite Nat.sub_0_r, substring_all. reflexivity.
    + simpl in Hi.
      transitivity (String a (String.substring 0 i c +:+
                              String.substring i (String.length c - i) c)).
      * f_equal. apply IH. lia.
      * reflexivity.
Qed.

Lemma endsWith_suffix (c s : string) :
  endsWith c s = true -> exists pre, c = pre +:+ s.
Proof.
  unfold endsWith.
  destruct (String.length s <=? String.length c)%nat eqn:Hlen; [|discriminate].
  apply Nat.leb_le in Hlen. intros Heq. apply String.eqb_eq in Heq.
  exists (String.substring 0 (String.length c - String.length s) c).
  pose proof (substring_from_start c (String.length c - String.length s)
                ltac:(lia)) as Hsplit.
  replace (String.length c - (String.length c - String.length s))%nat
    with (String.length s) in Hsplit by lia.
  rewrite Heq in Hsplit. exact Hsplit.
Qed.

Lemma suffix_comparable (p1 s1 : string) :
  forall p2 s2, p1 +:+ s1 = p2 +:+ s2 ->
    (String.length s1 <= String.length s2)%nat ->
    exists q, s2 = q +:+ s1.
Proof.
  induction p1 as [|a p1 IH]; intros p2 s2 Heq Hlen.
  - destruct p2 as [|b p2].
    + exists EmptyString. symmetry. exact Heq.
    + exfalso. apply (f_equal String.length) in Heq.
      change (String.length s1 = S (String.length (p2 +:+ s2))) in Heq.
      rewrite length_append in Heq. lia.
  - destruct p2 as [|b p2].
    + exists (String a p1). symmetry. exact Heq.
    + simpl in Heq. injection Heq as _ Heq. eapply IH; eassumption.
Qed.

Lemma status_not_permissions (c : string) :
  endsWith c "/status" = true -> endsWith c "/permissions" = false.
Proof.
  intros Hs. destruct (endsWith c "/permissions") eqn:Hp; [|reflexivity].
  apply endsWith_suffix in Hs as [p1 H1], Hp as [p2 H2].
  destruct (suffix_comparable p1 "/status" p2 "/permissions") as [q Hq];
    [congruence | simpl; lia |].
  exfalso.
  do 13 (destruct q as [|? q]; simpl in Hq;
         [discriminate Hq | first [discriminate Hq | injection Hq as _ Hq]]).
Qed.

End SuffixFacts.

(** ** PathMatcher, continued *)

Section MorePathMatcher.

Variable env : Browser.

Lemma ticketOrigin_path (menuPath : string) :
  ticketOrigin env menuPath = String.eqb menuPath (ticketOriginPath env).
Proof.
  unfold ticketOrigin, ticketOriginNoHint, ticketOriginPath.
  destruct (location_state_from env) as [f|]; [destruct (truthy f); [reflexivity|]|];
    repeat match goal with
           | |- (if ?b then _ else _) = String.eqb _ (if ?b then _ else _) =>
               destruct b; [reflexivity|]
           end;
    destruct (sessionStorage env !! "ticket_detail_from") as [s|];
    [destruct (truthy s)| | destruct (truthy s)|]; reflexivity.
Qed.

(** X1: On a ticket-detail route the active menu paths are the current path
    itself and the one origin the branch settles on. *)
Theorem ticket_route_single_origin (menuPath currentPath : string) :
  startsWith currentPath "/ticket/" = true ->
  isPathActive env menuPath currentPath =
  String.eqb menuPath currentPath || String.eqb menuPath (ticketOriginPath env).
Proof.
  intros Hticket. unfold isPathActive.
  destruct (String.eqb menuPath currentPath); [reflexivity|]. cbn [orb].
  rewrite (startsWith_incomparable "/ticket/" "/fill-ticket-form" currentPath
             eq_refl eq_refl Hticket).
  rewrite (startsWith_incomparable "/ticket/" "/services/" currentPath
             eq_refl eq_refl Hticket).
  rewrite (startsWith_incomparable "/ticket/" "/clusters/" currentPath
             eq_refl eq_refl Hticket).
  rewrite (startsWith_incomparable "/ticket/" "/k8s/deployments/" currentPath
             eq_refl eq_refl Hticket).
  rewrite !andb_false_r. cbn [andb].
  destruct (startsWith menuPath "/k8s/" &&
            startsWith currentPath (menuPath +:+ "/")) eqn:Hk8s.
  - apply andb_true_iff in Hk8s as [Hm Hc].
    pose proof (startsWith_extended _ _ _ _ Hm Hc) as Hk.
    rewrite (startsWith_incomparable "/ticket/" "/k8s/" currentPath
               eq_refl eq_refl Hticket) in Hk. discriminate.
  - cbn [andb]. rewrite Hticket. apply ticketOrigin_path.
Qed.


(** X2: [/services/...]: the list menu is active exactly when one segment
    follows. *)
Theorem services_detail_one_segment (rest : string) :
  isPathActive env "/services" ("/services/" +:+ rest) =
  (length (pathParts rest) =? 1)%nat.
Proof.
  assert (pathParts ("/services/" +:+ rest) = "services" :: pathParts rest) as Hparts.
  { change ("/services/" +:+ rest) with ("/services" +:+ "/" +:+ rest).
    rewrite pathParts_slash. reflexivity. }
  unfold isPathActive. rewrite Hparts.
  change (String.eqb "/services" ("/services/" +:+ rest)) with false.
  change (String.eqb "/services" "/daily-workorders") with false.
  change (String.eqb "/services" "/services") with true.
  rewrite (prefix_refl_app "/services/" rest : startsWith _ _ = true).
  change (String.eqb ("/services/" +:+ rest) "/services") with false.
  change (String.eqb "/services" "/clusters") with false.
  change (String.eqb "/services" "/cluster-permissions") with false.
  change (String.eqb "/services" "/k8s/deployments") with false.
  change (startsWith "/services" "/k8s/") with false.
  change (startsWith ("/services/" +:+ rest) "/ticket/") with false.
  cbn [andb negb app length lookup list_lookup].
  change (String.eqb "services" "services") with true.
  rewrite andb_true_r.
  destruct (pathParts rest) as [|? [|? ?]]; reflexivity.
Qed.


Lemma prefix_app_l (m p q : string) :
  String.prefix p q = true -> String.prefix (m +:+ p) (m +:+ q) = true.
Proof.
  intros Hpq. induction m as [|a m IH]; simpl; [exact Hpq|].
  destruct (ascii_dec a a); [exact IH | congruence].
Qed.

Lemma k8s_menu_not (menuPath other : string) :
  startsWith menuPath "/k8s/" = true ->
  startsWith other "/k8s/" = false ->
  String.eqb menuPath other = false.
Proof.
  intros Hk Ho. apply String.eqb_neq. intros ->. congruence.
Qed.

(** X3: Under [/k8s/], a menu path is active for every path below it that
    adds at least one segment; the five-segment requirement of the
    deployments rule changes nothing. *)
Theorem k8s_descendants_active (menuPath rest : string) :
  startsWith menuPath "/k8s/" = true ->
  isPathActive env menuPath (menuPath +:+ "/" +:+ rest) =
  (0 <? length (pathParts rest))%nat.
Proof.
  intros Hk8s.
  assert (String.prefix "/" ("/" +:+ rest) = true) as Hslash
    by (simpl; destruct rest; reflexivity).
  pose proof (eqb_longer menuPath rest "/"%char) as Hne.
  change (String "/"%char rest) with ("/" +:+ rest) in Hne.
  assert (String.eqb (menuPath +:+ "/" +:+ rest) menuPath = false) as Hne'.
  { apply String.eqb_neq. intros Heq. apply String.eqb_neq in Hne. congruence. }
  assert (startsWith (menuPath +:+ "/" +:+ rest) "/k8s/" = true) as Hck
    by (apply prefix_app_r, Hk8s).
  pose proof (startsWith_incomparable "/k8s/" "/ticket/" _ eq_refl eq_refl Hck)
    as Hticket.
  assert (startsWith (menuPath +:+ "/" +:+ rest) (menuPath +:+ "/") = true) as Hpre.
  { unfold startsWith. apply prefix_app_l.
    simpl. destruct rest; reflexivity. }
  unfold isPathActive.
  rewrite Hne, Hne', Hk8s, Hpre, Hticket, pathParts_slash.
  rewrite (k8s_menu_not menuPath "/daily-workorders" Hk8s eq_refl).
  rewrite (k8s_menu_not menuPath "/services" Hk8s eq_refl).
  rewrite (k8s_menu_not menuPath "/clusters" Hk8s eq_refl).
  rewrite (k8s_menu_not menuPath "/cluster-permissions" Hk8s eq_refl).
  cbn [andb negb].
  rewrite length_app, take_app_length, String.eqb_refl, andb_true_r.
  assert ((length (pathParts menuPath) <?
           length (pathParts menuPath) + length (pathParts rest))%nat =
          (0 <? length (pathParts rest))%nat) as ->.
  { destruct (pathParts rest); simpl length.
    - rewrite Nat.add_0_r. apply Nat.ltb_irrefl.
    - apply Nat.ltb_lt. lia. }
  destruct (String.eqb menuPath "/k8s/deployments") eqn:Edep; cbn [andb].
  - apply String.eqb_eq in Edep. subst menuPath.
    change (pathParts "/k8s/deployments") with ["k8s"; "deployments"].
    cbn [app length lookup list_lookup].
    change (String.eqb "k8s" "k8s") with true.
    change (String.eqb "deployments" "deployments") with true.
    assert (startsWith ("/k8s/deployments" +:+ "/" +:+ rest) "/k8s/deployments/" = true)
      as -> by (apply (prefix_refl_app "/k8s/deployments/" rest)).
    destruct (pathParts rest) as [|? [|? [|? ?]]]; reflexivity.
  - destruct (0 <? length (pathParts rest))%nat; reflexivity.
Qed.

(** X4: Below [/clusters/], the status page belongs to the clusters menu and
    the permissions page to the cluster-permissions menu, never to both. *)
Theorem cluster_pages_split (rest : string) :
  isPathActive env "/clusters" ("/clusters/" +:+ rest) =
    endsWith ("/clusters/" +:+ rest) "/status" /\
  isPathActive env "/cluster-permissions" ("/clusters/" +:+ rest) =
    endsWith ("/clusters/" +:+ rest) "/permissions" /\
  isPathActive env "/clusters" ("/clusters/" +:+ rest) &&
    isPathActive env "/cluster-permissions" ("/clusters/" +:+ rest) = false.
Proof.
  cut (isPathActive env "/clusters" ("/clusters/" +:+ rest) =
         endsWith ("/clusters/" +:+ rest) "/status" /\
       isPathActive env "/cluster-permissions" ("/clusters/" +:+ rest) =
         endsWith ("/clusters/" +:+ rest) "/permissions").
  { intros [H1 H2]. split; [exact H1|]. split; [exact H2|]. rewrite H1, H2.
    destruct (endsWith ("/clusters/" +:+ rest) "/status") eqn:Hs; [|reflexivity].
    rewrite (status_not_permissions _ Hs). reflexivity. }
  pose proof (prefix_refl_app "/clusters/" rest : startsWith _ _ = true) as Hpre.
  pose proof (startsWith_incomparable "/clusters/" "/ticket/" _ eq_refl eq_refl Hpre)
    as Hticket.
  pose proof (startsWith_incomparable "/clusters/" "/fill-ticket-form" _ eq_refl eq_refl Hpre)
    as Hfill.
  split; unfold isPathActive; rewrite Hpre, Hticket.
  - change (String.eqb "/clusters" ("/clusters/" +:+ rest)) with false.
    change (String.eqb "/clusters" "/daily-workorders") with false.
    change (String.eqb "/clusters" "/services") with false.
    change (String.eqb "/clusters" "/clusters") with true.
    change (String.eqb "/clusters" "/cluster-permissions") with false.
    change (String.eqb "/clusters" "/k8s/deployments") with false.
    change (startsWith "/clusters" "/k8s/") with false.
    cbn [andb].
    destruct (endsWith ("/clusters/" +:+ rest) "/status"); reflexivity.
  - change (String.eqb "/cluster-permissions" ("/clusters/" +:+ rest)) with false.
    change (String.eqb "/cluster-permissions" "/daily-workorders") with false.
    change (String.eqb "/cluster-permissions" "/services") with false.
    change (String.eqb "/cluster-permissions" "/clusters") with false.
    change (String.eqb "/cluster-permissions" "/cluster-permissions") with true.
    change (String.eqb "/cluster-permissions" "/k8s/deployments") with false.
    change (startsWith "/cluster-permissions" "/k8s/") with false.
    cbn [andb].
    destruct (endsWith ("/clusters/" +:+ rest) "/permissions"); reflexivity.
Qed.

End MorePathMatcher.

(** ** MenuTree, continued *)

Section MoreMenuTree.

Context {Icon : Type}.
Variable getIconByName : option string -> Icon.
Variable t : string -> string.

(** Induction over a menu tree, with the hypothesis for every child. *)
Lemma Menu_tree_ind (P : Menu -> Prop) :
  (forall m, menu_children m = None -> P m) ->
  (forall m cs, menu_children m = Some cs -> Forall P cs -> P m) ->
  forall m, P m.
Proof.
  intros Hleaf Hnode. fix IH 1. intros m.
  destruct (menu_children m) as [cs|] eqn:Hcs.
  - apply (Hnode m cs Hcs). destruct m as [id path name hid comp children meta].
    cbn in Hcs. subst children.
    induction cs as [|c cs IHcs]; constructor; [apply IH | exact IHcs].
  - apply Hleaf, Hcs.
Qed.

Lemma find_app_first {A} (f : A -> bool) (a b : list A) :
  List.find f (a ++ b) =
  match List.find f a with
  | Some x => Some x
  | None => List.find f b
  end.
Proof.
  induction a as [|x a IH]; cbn; [reflexivity|].
  destruct (f x); [reflexivity | exact IH].
Qed.

Lemma flattenMenu_children (m : Menu) :
  flattenMenu m = m :: flattenMenus (default [] (menu_children m)).
Proof.
  destruct m as [id path name hid comp [cs|] meta]; reflexivity.
Qed.

Lemma findMenu_children (path : string) (m : Menu) :
  findMenu path m =
  if String.eqb (menu_path m) path then Some m
  else findMenuByPath path (default [] (menu_children m)).
Proof.
  destruct m as [id mpath name hid comp [cs|] meta]; cbn; [|reflexivity].
  destruct (String.eqb mpath path); [reflexivity|].
  induction cs as [|c cs IH]; cbn; [reflexivity|].
  destruct (findMenu path c); [reflexivity | exact IH].
Qed.

Lemma findMenu_preorder (path : string) (m : Menu) :
  findMenu path m =
  List.find (fun n => String.eqb (menu_path n) path) (flattenMenu m).
Proof.
  induction m as [m Hnone | m cs Hsome IH] using Menu_tree_ind;
    rewrite findMenu_children, flattenMenu_children; cbn [List.find].
  - rewrite Hnone. destruct (String.eqb (menu_path m) path); reflexivity.
  - rewrite Hsome. change (default [] (Some cs)) with cs. clear Hsome.
    destruct (String.eqb (menu_path m) path); [reflexivity|].
    unfold flattenMenus.
    induction IH as [|c cs Hc _ IHcs]; cbn; [reflexivity|].
    rewrite find_app_first, <- Hc.
    destruct (findMenu path c); [reflexivity | exact IHcs].
Qed.

(** X5: [findMenuByPath] returns the first node, in depth-first pre-order and
    hidden nodes included, whose path is the one asked for; it returns
    nothing only when no node of the tree has that path. *)
Theorem findMenuByPath_first_in_preorder (path : string) (menus : list Menu) :
  findMenuByPath path menus =
    List.find (fun n => String.eqb (menu_path n) path) (flattenMenus menus) /\
  (findMenuByPath path menus = None <->
   forall n, In n (flattenMenus menus) -> menu_path n <> path).
Proof.
  assert (findMenuByPath path menus =
          List.find (fun n => String.eqb (menu_path n) path) (flattenMenus menus))
    as Heq.
  { induction menus as [|m menus IH]; cbn; [reflexivity|].
    rewrite find_app_first, <- findMenu_preorder, IH. reflexivity. }
  split; [exact Heq|]. rewrite Heq. split.
  - intros Hnone n Hn. apply String.eqb_neq.
    apply (find_none _ _ Hnone n Hn).
  - intros Hall.
    destruct (List.find _ (flattenMenus menus)) as [n|] eqn:Hfind; [|reflexivity].
    apply find_some in Hfind as [Hin Hp]. apply String.eqb_eq in Hp.
    destruct (Hall n Hin Hp).
Qed.

(** X6: [getMenuTitle] looks at the node's [name] only, and gives a title that
    is not empty as long as the name is not. *)
Theorem getMenuTitle_from_name_never_blank (menu other : Menu) :
  (menu_name menu = menu_name other -> getMenuTitle t menu = getMenuTitle t other) /\
  (menu_name menu <> "" -> getMenuTitle t menu <> "").
Proof.
  split.
  - intros Hname. unfold getMenuTitle. rewrite Hname. reflexivity.
  - intros Hname. unfold getMenuTitle.
    destruct (truthy (t ("menu.groups." +:+ menu_name menu)) && _) eqn:Hg.
    + apply andb_true_iff in Hg as [Hg _]. unfold truthy in Hg.
      apply negb_true_iff, String.eqb_neq in Hg. exact Hg.
    + destruct (truthy (t ("menu." +:+ menu_name menu)) && _) eqn:Hm.
      * apply andb_true_iff in Hm as [Hm _]. unfold truthy in Hm.
        apply negb_true_iff, String.eqb_neq in Hm. exact Hm.
      * exact Hname.
Qed.

Lemma flattenItem_children (item : MenuItem Icon) :
  flattenItem item =
  item :: List.flat_map flattenItem (default [] (item_children item)).
Proof.
  destruct item as [id icon path title [cs|]]; reflexivity.
Qed.

Lemma convert_children (menu : Menu) :
  item_children (convertMenuToMenuItem getIconByName t menu) =
  List.map (convertMenuToMenuItem getIconByName t) <$> menu_children menu.
Proof.
  destruct menu as [id path name hid comp [[|c cs]|] meta]; reflexivity.
Qed.

(** X7: [convertMenuToMenuItem] keeps every node below the one it converts,
    hidden ones included, in the same order, each with its id, its path
    and its resolved title. *)
Theorem convertMenuToMenuItem_keeps_every_node (menu : Menu) :
  List.map (fun item => (item_id item, item_path item, item_title item))
    (flattenItem (convertMenuToMenuItem getIconByName t menu)) =
  List.map (fun n => (menu_id n, menu_path n, getMenuTitle t n))
    (flattenMenu menu).
Proof.
  induction menu as [m Hnone | m cs Hsome IH] using Menu_tree_ind;
    rewrite flattenItem_children, flattenMenu_children, convert_children.
  - rewrite Hnone. destruct m; reflexivity.
  - rewrite Hsome. clear Hsome.
    change (default [] (List.map (convertMenuToMenuItem getIconByName t) <$> Some cs))
      with (List.map (convertMenuToMenuItem getIconByName t) cs).
    change (default [] (Some cs)) with cs.
    cbn [List.map]. f_equal; [destruct m; reflexivity|].
    unfold flattenMenus.
    induction IH as [|c cs Hc _ IHcs]; [reflexivity|].
    cbn [List.map List.flat_map]. rewrite !List.map_app, Hc, IHcs. reflexivity.
Qed.

End MoreMenuTree.

(** ** GroupExpansionTracker and the sidebar, continued *)

Section MoreExpansion.

Context {Icon : Type}.
Variable env : Browser.

Lemma lookup_expand_keys (keys : list string) (og : gmap string bool) (k : string) :
  foldl (fun acc key => expandKey key acc) og keys !! k =
  if bool_decide (k ∈ keys) then Some true else og !! k.
Proof.
  revert og. induction keys as [|key keys IH]; intros og; cbn [foldl]; [reflexivity|].
  rewrite IH, lookup_expandKey.
  destruct (decide (key = k)) as [->|Hne].
  - rewrite (bool_decide_eq_true_2 (k ∈ k :: keys)) by apply list_elem_of_here.
    destruct (bool_decide (k ∈ keys)); reflexivity.
  - apply (f_equal (fun b : bool => if b then Some true else og !! k)).
    apply bool_decide_ext. rewrite elem_of_cons. intuition congruence.
Qed.

Lemma expandGroups_keys (menuGroups : list (MenuGroup Icon)) (og : gmap string bool) :
  expandGroups env menuGroups og =
  foldl (fun acc key => expandKey key acc) og
    (List.map group_id (List.filter (hasActiveItem env) menuGroups)).
Proof.
  unfold expandGroups. revert og.
  induction menuGroups as [|g gs IH]; intros og; cbn [foldl List.filter]; [reflexivity|].
  rewrite IH. destruct (hasActiveItem env g); reflexivity.
Qed.

Lemma expandSubGroups_keys (menuGroups : list (MenuGroup Icon)) (og : gmap string bool) :
  expandSubGroups env menuGroups og =
  foldl (fun acc key => expandKey key acc) og
    (List.flat_map
       (fun group =>
          List.map (subGroupKey group)
            (List.filter (hasActiveGrandchild env) (group_items group)))
       menuGroups).
Proof.
  unfold expandSubGroups. revert og.
  induction menuGroups as [|g gs IH]; intros og; cbn [foldl List.flat_map]; [reflexivity|].
  rewrite IH, foldl_app. f_equal.
  generalize (group_items g). intros items. revert og.
  induction items as [|i items IHi]; intros og; cbn [foldl List.filter]; [reflexivity|].
  rewrite IHi. destruct (hasActiveGrandchild env i); reflexivity.
Qed.

(** The effect in closed form. *)
Lemma lookup_expansionEffect (menuGroups : list (MenuGroup Icon))
    (og : gmap string bool) (k : string) :
  expansionEffect env menuGroups og !! k =
  if bool_decide (k ∈ expandedKeys env menuGroups) then Some true else og !! k.
Proof.
  unfold expansionEffect, expandedKeys.
  rewrite expandSubGroups_keys, expandGroups_keys, <- foldl_app.
  apply lookup_expand_keys.
Qed.

(** X8: After the route-change expansion every group one of whose items is
    active, or has an active child, is rendered open, and so is every
    second-level entry one of whose children is active, or has an active
    child, whatever the state was: also one the user had just collapsed. *)
Theorem expansionEffect_opens_active (menuGroups : list (MenuGroup Icon))
    (og : gmap string bool) :
  (forall group, In group menuGroups -> hasActiveItem env group = true ->
     groupIsOpen (expansionEffect env menuGroups og) (group_id group) = true) /\
  (forall group item,
     In group menuGroups -> In item (group_items group) ->
     hasActiveGrandchild env item = true ->
     itemIsOpen (expansionEffect env menuGroups og) (subGroupKey group item) = true).
Proof.
  split.
  - intros group Hin Hact. unfold groupIsOpen, readOr. rewrite lookup_expansionEffect.
    rewrite bool_decide_eq_true_2; [reflexivity|].
    unfold expandedKeys. apply list_elem_of_In, in_or_app. left.
    apply in_map, filter_In. split; assumption.
  - intros group item Hg Hi Hact. unfold itemIsOpen, readOr.
    rewrite lookup_expansionEffect.
    rewrite bool_decide_eq_true_2; [reflexivity|].
    unfold expandedKeys. apply list_elem_of_In, in_or_app. right.
    apply in_flat_map. exists group. split; [exact Hg|].
    apply in_map, filter_In. split; assumption.
Qed.

(** X9: Running the expansion again on its own result changes nothing. *)
Theorem expansionEffect_idempotent (menuGroups : list (MenuGroup Icon))
    (og : gmap string bool) :
  expansionEffect env menuGroups (expansionEffect env menuGroups og) =
  expansionEffect env menuGroups og.
Proof.
  apply map_eq. intros k. rewrite !lookup_expansionEffect.
  destruct (bool_decide (k ∈ expandedKeys env menuGroups)); reflexivity.
Qed.


(** X11: A click on a group header writes the negation of what the key
    reads as. For a key the state owns, the rendered group flips. For a key
    it does not own, the group shows open before the click; after it the
    group is still open, unless the key is a name every object inherits
    (such as [constructor]), which reads as truthy, so that the click
    collapses the group. A sub-group always flips, and no other key is
    touched. *)
Theorem handleGroupToggle_rendering (key : string) (og : gmap string bool) :
  (is_Some (og !! key) ->
     groupIsOpen (handleGroupToggle key og) key = negb (groupIsOpen og key)) /\
  (og !! key = None ->
     groupIsOpen og key = true /\
     groupIsOpen (handleGroupToggle key og) key = negb (inherited key)) /\
  itemIsOpen (handleGroupToggle key og) key = negb (itemIsOpen og key) /\
  (forall other, other <> key -> handleGroupToggle key og !! other = og !! other).
Proof.
  unfold groupIsOpen, itemIsOpen, readOr, handleGroupToggle, readTruthy.
  rewrite lookup_insert_eq. repeat split.
  - intros [b Hb]. rewrite Hb. reflexivity.
  - rewrite H. destruct (inherited key); reflexivity.
  - rewrite H. reflexivity.
  - destruct (og !! key) as [b|]; [reflexivity|].
    destruct (inherited key); reflexivity.
  - intros other Hne. apply lookup_insert_ne. congruence.
Qed.

End MoreExpansion.

(** ** Timestamps: printing and parsing *)

Section TimestampFacts.

Lemma pretty_N_char_digit (r : N) :
  (r < 10)%N ->
  isDigit (pretty_N_char r) = true /\
  isSpace (pretty_N_char r) = false /\
  Z.of_nat (nat_of_ascii (pretty_N_char r) - 48) = Z.of_N r.
Proof.
  intros Hr.
  assert (r = 0 \/ r = 1 \/ r = 2 \/ r = 3 \/ r = 4 \/ r = 5 \/ r = 6 \/
          r = 7 \/ r = 8 \/ r = 9)%N as Hcases by lia.
  repeat destruct Hcases as [-> | Hcases]; try subst r; repeat split; reflexivity.
Qed.

(** Reading the digits [pretty_N_go] writes gives the number back. *)
Lemma digitsAux_pretty_N_go (x : N) :
  forall (s : string) (seen : bool),
    (0 < x)%N ->
    digitsAux 0 seen (pretty_N_go x s) = digitsAux (Z.of_N x) true s.
Proof.
  induction (N.lt_wf_0 x) as [x _ IH]. intros s seen Hx.
  rewrite pretty_N_go_step by exact Hx.
  destruct (pretty_N_char_digit (x `mod` 10)%N) as (Hd & _ & Hv);
    [apply N.mod_lt; lia|].
  destruct (N.eq_0_gt_0_cases (x `div` 10)%N) as [Hz | Hpos].
  - rewrite Hz, pretty_N_go_0. cbn [digitsAux]. rewrite Hd, Hv.
    f_equal. rewrite (N.div_mod x 10) at 2 by lia. lia.
  - rewrite IH; [|apply N.div_lt; lia | exact Hpos].
    cbn [digitsAux]. rewrite Hd, Hv. f_equal.
    rewrite (N.div_mod x 10) at 3 by lia. lia.
Qed.

Lemma pretty_N_go_head (x : N) :
  forall s, (0 < x)%N ->
    exists r rest, (r < 10)%N /\ pretty_N_go x s = String (pretty_N_char r) rest.
Proof.
  induction (N.lt_wf_0 x) as [x _ IH]. intros s Hx.
  rewrite pretty_N_go_step by exact Hx.
  destruct (N.eq_0_gt_0_cases (x `div` 10)%N) as [Hz | Hpos].
  - rewrite Hz, pretty_N_go_0. exists (x `mod` 10)%N, s.
    split; [apply N.mod_lt; lia | reflexivity].
  - apply IH; [apply N.div_lt; lia | exact Hpos].
Qed.

Lemma parseInt_digit_head (r : N) (rest : string) :
  (r < 10)%N ->
  parseInt (String (pretty_N_char r) rest) =
  digitsAux 0 false (String (pretty_N_char r) rest).
Proof.
  intros Hr.
  assert (r = 0 \/ r = 1 \/ r = 2 \/ r = 3 \/ r = 4 \/ r = 5 \/ r = 6 \/
          r = 7 \/ r = 8 \/ r = 9)%N as Hcases by lia.
  repeat destruct Hcases as [-> | Hcases]; try subst r; reflexivity.
Qed.

(** A no-break space before the digits is skipped like a blank. *)
Example parseInt_skips_no_break_space :
  parseInt (String "194" (String "160" "1000")) = Some 1000%Z /\
  parseInt " 1000" = Some 1000%Z /\
  parseInt (String "194" "1000") = None.
Proof. repeat split; reflexivity. Qed.

(** [parseInt(n.toString(), 10)] is [n] for every timestamp [n >= 0]. *)
Lemma parseInt_pretty (n : Z) : (0 <= n)%Z -> parseInt (pretty n) = Some n.
Proof.
  intros Hn. destruct n as [|p|p]; [reflexivity | | lia].
  change (pretty (Z.pos p)) with (pretty_N_go (N.pos p) "").
  destruct (pretty_N_go_head (N.pos p) "") as (r & rest & Hr & Hhead); [lia|].
  rewrite Hhead, (parseInt_digit_head r rest Hr), <- Hhead.
  rewrite digitsAux_pretty_N_go by lia. reflexivity.
Qed.

End TimestampFacts.

(** ** MenuCache, continued *)

Section MoreMenuCache.

Import MenuCache.

Variable JSON_parse : string -> option MenusValue.
Variable JSON_stringify : list Menu -> string.

Ltac step_eff :=
  repeat (progress cbn ||
          match goal with
          | H : ?lhs = _ |- context [?lhs] => rewrite H
          end).

Ltac open_eff :=
  unfold fetchRemote, readFreshCache, tryFinally, tryCatch, bind, getItem,
    setItem, dateNow, jsonParse, forEachMenu, present, setLoading, getUserMenus,
    setMenus, setOpenGroups, ret, throw.

(** A remote fetch returns, costs one call and clears the loading flag. *)
Lemma fetchRemote_done (w : World) :
  exists w', fetchRemote JSON_parse JSON_stringify w = (Return tt, w') /\
             remoteCalls w' = S (remoteCalls w) /\ loading w' = false.
Proof.
  destruct (server w) as [[data|]|] eqn:Hsrv.
  - destruct (storageWritable w) eqn:Hwr; open_eff; step_eff;
      eexists; repeat split; reflexivity.
  - open_eff; step_eff; eexists; repeat split; reflexivity.
  - destruct (storageReadable w) eqn:Hread;
      [|open_eff; step_eff; eexists; repeat split; reflexivity].
    destruct (storage w !! cacheKey) as [s|] eqn:Hk1;
      [|open_eff; step_eff; eexists; repeat split; reflexivity].
    destruct (truthy s) eqn:Hs;
      [|open_eff; step_eff; eexists; repeat split; reflexivity].
    destruct (JSON_parse s) as [[ms|json]|] eqn:Hparse;
      open_eff; step_eff; eexists; repeat split; reflexivity.
Qed.

(** X12: Every load returns normally with the loading flag cleared, and it
    calls the server exactly when it cannot answer from a fresh snapshot:
    a forced refresh, a missing, unreadable, unparsable or expired cache,
    a cache text that denotes no list of menus, or a timestamp that is
    not a number. *)
Theorem fetchMenus_calls_unless_fresh (forceRefresh : bool) (w : World) :
  exists w',
    fetchMenus JSON_parse JSON_stringify forceRefresh w = (Return tt, w') /\
    loading w' = false /\
    remoteCalls w' =
      match freshSnapshot JSON_parse forceRefresh w with
      | Some _ => remoteCalls w
      | None => S (remoteCalls w)
      end.
Proof.
  destruct (freshSnapshot JSON_parse forceRefresh w) as [ms|] eqn:Hfresh.
  - rewrite (fetchMenus_hit JSON_parse JSON_stringify forceRefresh w ms Hfresh).
    exists (answered ms w). repeat split; reflexivity.
  - rewrite (fetchMenus_miss JSON_parse JSON_stringify forceRefresh w Hfresh).
    destruct (fetchRemote_done (afterCacheMiss JSON_parse forceRefresh w))
      as (w' & Hrun & Hcalls & Hload).
    destruct (afterCacheMiss_frame JSON_parse forceRefresh w)
      as (_ & _ & _ & _ & _ & _ & Hn & _).
    exists w'. split; [exact Hrun|]. split; [exact Hload|].
    rewrite Hcalls, Hn. reflexivity.
Qed.

(** What a successful fetch leaves in a writable storage. *)
Lemma fetchRemote_stores (w : World) (data : list Menu) :
  server w = Resolves (Some data) ->
  storageWritable w = true ->
  exists w', fetchRemote JSON_parse JSON_stringify w = (Return tt, w') /\
             menus w' = data /\
             storage w' =
               <[cacheTimestampKey := pretty (clock w + latency w)%Z]>
                 (<[cacheKey := JSON_stringify data]> (storage w)) /\
             storageReadable w' = storageReadable w /\
             clock w' = (clock w + latency w)%Z.
Proof.
  intros Hsrv Hwr. open_eff. step_eff. eexists. repeat split; reflexivity.
Qed.

(** X13: Cache round trip: what a successful fetch stored is what a later load
    answers with, without calling the server, as long as less than ten
    minutes have passed on the clock. *)
Theorem fetchMenus_cache_round_trip (forceRefresh : bool) (w : World)
    (data : list Menu) :
  freshSnapshot JSON_parse forceRefresh w = None ->
  server w = Resolves (Some data) ->
  storageWritable w = true ->
  (0 <= clock w + latency w)%Z ->
  JSON_parse (JSON_stringify data) = Some (MenuList data) ->
  truthy (JSON_stringify data) = true ->
  exists w1,
    fetchMenus JSON_parse JSON_stringify forceRefresh w = (Return tt, w1) /\
    forall w2,
      storage w2 = storage w1 -> storageReadable w2 = true ->
      (clock w2 - clock w1 < cacheExpiry)%Z ->
      exists w3,
        fetchMenus JSON_parse JSON_stringify false w2 = (Return tt, w3) /\
        menus w3 = data /\ remoteCalls w3 = remoteCalls w2.
Proof.
  intros Hfresh Hsrv Hwr Hclock Hjson Htext.
  rewrite (fetchMenus_miss JSON_parse JSON_stringify forceRefresh w Hfresh).
  destruct (afterCacheMiss_frame JSON_parse forceRefresh w)
    as (Hf1 & _ & Hf3 & Hf4 & Hf5 & Hf6 & _).
  destruct (fetchRemote_stores (afterCacheMiss JSON_parse forceRefresh w) data)
    as (w1 & Hrun & _ & Hstore & _ & Hclock1);
    [rewrite Hf6; exact Hsrv | rewrite Hf3; exact Hwr |].
  rewrite Hf1, Hf4, Hf5 in Hstore. rewrite Hf4, Hf5 in Hclock1.
  exists w1. split; [exact Hrun|].
  intros w2 Hst2 Hread2 Hage.
  assert (freshSnapshot JSON_parse false w2 = Some data) as Hfresh2.
  { unfold freshSnapshot, cacheAge, cachedSnapshot.
    rewrite Hread2, Hst2, Hstore.
    rewrite lookup_insert_eq.
    rewrite lookup_insert_ne by discriminate. rewrite lookup_insert_eq.
    rewrite parseInt_pretty by exact Hclock.
    rewrite <- Hclock1. apply Z.ltb_lt in Hage. rewrite Hage, Htext, Hjson.
    reflexivity. }
  rewrite (fetchMenus_hit JSON_parse JSON_stringify false w2 data Hfresh2).
  exists (answered data w2). repeat split; reflexivity.
Qed.

(** X14: A response without [data] changes neither the expansion state nor
    the cache, and it leaves the menus as the look at the cache left them:
    as they were, unless a fresh cache text denoted a value that is no list
    of menus, which the load had installed before turning to the server. *)
Theorem fetchMenus_response_without_data (forceRefresh : bool) (w : World) :
  freshSnapshot JSON_parse forceRefresh w = None ->
  server w = Resolves None ->
  exists w',
    fetchMenus JSON_parse JSON_stringify forceRefresh w = (Return tt, w') /\
    menus w' = match freshOther JSON_parse forceRefresh w with
               | Some json => OtherValue json
               | None => menus w
               end /\
    openGroups w' = openGroups w /\
    storage w' = storage w.
Proof.
  intros Hfresh Hsrv.
  rewrite (fetchMenus_miss JSON_parse JSON_stringify forceRefresh w Hfresh).
  destruct (afterCacheMiss_frame JSON_parse forceRefresh w)
    as (Hf1 & _ & _ & _ & _ & Hf6 & _ & Hf8 & _).
  rewrite <- Hf6 in Hsrv. rewrite <- Hf1, <- Hf8.
  assert (menus (afterCacheMiss JSON_parse forceRefresh w) =
          match freshOther JSON_parse forceRefresh w with
          | Some json => OtherValue json
          | None => menus w
          end) as <-
    by (unfold afterCacheMiss; destruct (freshOther JSON_parse forceRefresh w);
        reflexivity).
  generalize dependent (afterCacheMiss JSON_parse forceRefresh w). intros w0 Hsrv.
  open_eff. step_eff. eexists. repeat split; reflexivity.
Qed.

(** X15: The cache write is best effort: when the storage refuses the write the
    fetched menus are installed all the same and the storage is left as it
    was. *)
Theorem fetchMenus_unwritable_storage (forceRefresh : bool) (w : World)
    (data : list Menu) :
  freshSnapshot JSON_parse forceRefresh w = None ->
  server w = Resolves (Some data) ->
  storageWritable w = false ->
  exists w',
    fetchMenus JSON_parse JSON_stringify forceRefresh w = (Return tt, w') /\
    menus w' = data /\ openGroups w' = initialOpenState data /\
    storage w' = storage w.
Proof.
  intros Hfresh Hsrv Hwr.
  rewrite (fetchMenus_miss JSON_parse JSON_stringify forceRefresh w Hfresh).
  destruct (afterCacheMiss_frame JSON_parse forceRefresh w)
    as (Hf1 & _ & Hf3 & _ & _ & Hf6 & _).
  rewrite <- Hf6 in Hsrv. rewrite <- Hf3 in Hwr. rewrite <- Hf1.
  generalize dependent (afterCacheMiss JSON_parse forceRefresh w). intros w0 Hsrv Hwr.
  open_eff. step_eff. eexists. repeat split; reflexivity.
Qed.

(** X16: After a logout nothing of the menu cache is left: the next load calls
    the server, and if that call fails the sidebar is empty rather than
    the previous user's. *)
Theorem logout_then_load (s : Stores) (forceRefresh : bool) (w : World) :
  storage w = stores_session (handleLogout s) ->
  exists w',
    fetchMenus JSON_parse JSON_stringify forceRefresh w = (Return tt, w') /\
    remoteCalls w' = S (remoteCalls w) /\
    (server w = Rejects -> menus w' = []).
Proof.
  intros Hst.
  assert (storage w !! cacheKey = None) as Hk1.
  { rewrite Hst. unfold handleLogout. cbn [stores_session].
    rewrite lookup_delete_ne by discriminate.
    rewrite lookup_delete_ne by discriminate. apply lookup_delete_eq. }
  assert (cachedSnapshot JSON_parse w = None) as Hsnap.
  { unfold cachedSnapshot. rewrite Hk1. destruct (storageReadable w); reflexivity. }
  assert (freshSnapshot JSON_parse forceRefresh w = None) as Hfresh.
  { unfold freshSnapshot. rewrite Hsnap. destruct forceRefresh; [reflexivity|].
    destruct (cacheAge w) as [age|]; [|reflexivity].
    destruct (age <? cacheExpiry)%Z; reflexivity. }
  rewrite (fetchMenus_miss JSON_parse JSON_stringify forceRefresh w Hfresh).
  destruct (afterCacheMiss_frame JSON_parse forceRefresh w)
    as (_ & _ & _ & _ & _ & Hf6 & Hf7 & _).
  destruct (fetchRemote_done (afterCacheMiss JSON_parse forceRefresh w))
    as (w' & Hrun & Hcalls & _).
  exists w'. split; [exact Hrun|]. split; [rewrite Hcalls, Hf7; reflexivity|].
  intros Hsrv.
  destruct (fetchRemote_rejects JSON_parse JSON_stringify
              (afterCacheMiss JSON_parse forceRefresh w))
    as (w'' & Hrun' & Hmenus & _); [rewrite Hf6; exact Hsrv|].
  rewrite Hrun in Hrun'. injection Hrun' as <-.
  rewrite Hmenus, afterCacheMiss_snapshot, Hsnap. reflexivity.
Qed.

End MoreMenuCache.

(** ** TabSynchronizer, continued *)

Section MoreTabSync.

Import TabSync Shell.

Variable menuClosable : Menu -> bool.
Variable t : string -> string.

Lemma onLocaleChanged_coherent (menus : list Menu) (st : SyncState) :
  tabsCoherent (tabs st) ->
  tabsCoherent (tabs (onLocaleChanged menuClosable t menus st)).
Proof.
  intros Hco. unfold onLocaleChanged.
  destruct ((0 <? length menus)%nat && (0 <? length (tabs st))%nat); [|exact Hco].
  apply applyTitleUpdates_coherent, Hco.
Qed.

Lemma handleMenuClick_coherent (path : string) (menus : list Menu) (sh : ShellState) :
  tabsCoherent (tabs (shell_sync sh)) ->
  tabsCoherent (tabs (shell_sync (handleMenuClick menuClosable path menus sh))).
Proof.
  intros Hco. unfold handleMenuClick.
  destruct (String.eqb path "/terminal" || String.eqb path "/template-editor");
    [exact Hco|].
  destruct (String.eqb path "/permissions"); [exact Hco|].
  cbn [shell_sync].
  destruct (findMenuByPath path menus) as [m|]; [|exact Hco].
  destruct (hasComponent m); [apply addTab_coherent|]; exact Hco.
Qed.

(** X17: Whatever the shell goes through (reconciliations, route changes,
    locale changes, clicks on menu entries, [menusLoaded] events), a tab
    collection that starts with ids derived from paths and one tab per
    path never holds two tabs of one path. *)
Theorem shell_keeps_one_tab_per_path (es : list ShellEvent) (sh : ShellState) :
  Forall tabKeyed (tabs (shell_sync sh)) ->
  onePerPath (tabs (shell_sync sh)) ->
  onePerPath (tabs (shell_sync (reactAll menuClosable t es sh))).
Proof.
  intros Hkeyed Hone.
  assert (tabsCoherent (tabs (shell_sync (reactAll menuClosable t es sh))))
    as [_ H]; [|exact H].
  unfold reactAll.
  apply (foldl_preserves (fun s => tabsCoherent (tabs (shell_sync s)))).
  - intros s [tree | currentPath tree | tree | path tree | detail] Hs;
      cbn [react withSync shell_sync].
    + apply onMenuTreeLoaded_coherent, Hs.
    + apply onNavigate_coherent, Hs.
    + apply onLocaleChanged_coherent, Hs.
    + apply handleMenuClick_coherent, Hs.
    + apply cleanInvalidTabs_coherent, Hs.
  - split; assumption.
Qed.


End MoreTabSync.

(** ** The locale effect *)

Section LocaleEffect.

Import TabSync Shell.

Variable menuClosable : Menu -> bool.
Variable t : string -> string.
Variable menus : list Menu.

Lemma localeQueue_entries (l : list Tab) (acc : list (Tab * Menu * string)) :
  foldl (localeStep t menus) acc l = acc ++ List.flat_map (localeEntries t menus) l.
Proof.
  revert acc. induction l as [|tab l IH]; intros acc; cbn [foldl List.flat_map].
  - rewrite app_nil_r. reflexivity.
  - rewrite IH. unfold localeStep, localeEntries.
    destruct (findMenuByPath (tab_path tab) menus) as [menu|]; [|reflexivity].
    destruct (negb _); [rewrite <- List.app_assoc|]; reflexivity.
Qed.

Lemma addressed_hasId (tab : Tab) (path : string) :
  tabAddressed tab -> path <> "home" ->
  hasId (tabIdOf path) tab = String.eqb (tab_path tab) path.
Proof.
  intros [Hkeyed Hhome] Hp. unfold hasId. rewrite Hkeyed.
  destruct (String.eqb (tab_path tab) path) eqn:E.
  - apply String.eqb_eq in E. subst path. apply String.eqb_refl.
  - apply String.eqb_neq. intros Heq. apply String.eqb_neq in E. apply E.
    apply tabIdOf_inj; assumption.
Qed.

(** One queued correction: the tabs of its path get the title, nothing
    else moves. *)
Lemma addTab_retitles (tab0 : Tab) (menu : Menu) (title : string)
    (pend : list string) (st : SyncState) :
  findMenuByPath (tab_path tab0) menus = Some menu ->
  title = getMenuTitle t menu ->
  In (tab_path tab0) (List.map tab_path (tabs st)) ->
  Forall tabAddressed (tabs st) ->
  titlesPending t menus (tab_path tab0 :: pend) (tabs st) ->
  let st' := addTab menuClosable (menuWithTitle menu title) st in
  List.map tab_id (tabs st') = List.map tab_id (tabs st) /\
  List.map tab_path (tabs st') = List.map tab_path (tabs st) /\
  Forall tabAddressed (tabs st') /\
  titlesPending t menus pend (tabs st').
Proof.
  intros Hfind Htitle Hin Haddr Hpend. cbn zeta.
  pose proof (findMenuByPath_path _ _ _ Hfind) as Hpath.
  apply in_map_iff in Hin as (x0 & Hx0p & Hx0).
  rewrite List.Forall_forall in Haddr.
  assert (tab_path tab0 <> "home") as Hhome
    by (rewrite <- Hx0p; apply (Haddr x0 Hx0)).
  unfold addTab. rewrite menuTabTitle_withTitle.
  change (menu_path (menuWithTitle menu title)) with (menu_path menu).
  rewrite Hpath.
  assert (existsb (hasId (tabIdOf (tab_path tab0))) (tabs st) = true) as ->.
  { apply existsb_exists. exists x0. split; [exact Hx0|].
    rewrite (addressed_hasId x0 _ (Haddr x0 Hx0) Hhome). apply String.eqb_eq, Hx0p. }
  cbn [withTabs tabs]. rewrite !List.map_map. repeat split.
  - apply List.map_ext. intros x. destruct (hasId _ x); reflexivity.
  - apply List.map_ext. intros x. destruct (hasId _ x); reflexivity.
  - apply List.Forall_forall. intros x Hx.
    apply in_map_iff in Hx as (y & <- & Hy).
    destruct (hasId _ y); [|apply Haddr, Hy].
    destruct (Haddr y Hy) as [Hk Hh]. split; assumption.
  - intros x m Hx Hm. apply in_map_iff in Hx as (y & <- & Hy).
    rewrite (addressed_hasId y _ (Haddr y Hy) Hhome) in Hm |- *.
    destruct (String.eqb (tab_path y) (tab_path tab0)) eqn:E.
    + left. cbn [tab_path tab_title] in *. apply String.eqb_eq in E.
      rewrite E, Hfind in Hm. injection Hm as <-. exact Htitle.
    + apply String.eqb_neq in E.
      destruct (Hpend y m Hy Hm) as [Hok | [Heq | Hrest]];
        [left; exact Hok | congruence | right; exact Hrest].
Qed.

Lemma applyTitleUpdates_retitles (U : list (Tab * Menu * string)) :
  forall st : SyncState,
    Forall (fun e => findMenuByPath (tab_path e.1.1) menus = Some e.1.2 /\
                     e.2 = getMenuTitle t e.1.2 /\
                     In (tab_path e.1.1) (List.map tab_path (tabs st))) U ->
    Forall tabAddressed (tabs st) ->
    titlesPending t menus (List.map entryPath U) (tabs st) ->
    let st' := applyTitleUpdates menuClosable U st in
    List.map tab_id (tabs st') = List.map tab_id (tabs st) /\
    List.map tab_path (tabs st') = List.map tab_path (tabs st) /\
    titlesPending t menus [] (tabs st').
Proof.
  unfold applyTitleUpdates.
  induction U as [|[[tab0 menu] title] U IH]; intros st HU Haddr Hpend;
    cbn [foldl List.map] in *.
  - repeat split; [exact Hpend].
  - apply List.Forall_cons_iff in HU as [(Hfind & Htitle & Hin) HU].
    cbn [fst snd] in *.
    destruct (addTab_retitles tab0 menu title (List.map entryPath U) st
                Hfind Htitle Hin Haddr Hpend) as (Hids & Hpaths & Haddr' & Hpend').
    destruct (IH (addTab menuClosable (menuWithTitle menu title) st))
      as (Hids' & Hpaths' & Hdone); [|exact Haddr'|exact Hpend'|].
    + eapply List.Forall_impl; [|exact HU].
      intros e (He1 & He2 & He3). rewrite Hpaths. auto.
    + rewrite Hids', Hpaths', Hids, Hpaths. repeat split; [exact Hdone].
Qed.

Lemma localeEntries_sound (l : list Tab) :
  Forall (fun e => findMenuByPath (tab_path e.1.1) menus = Some e.1.2 /\
                   e.2 = getMenuTitle t e.1.2 /\
                   In (tab_path e.1.1) (List.map tab_path l))
    (List.flat_map (localeEntries t menus) l).
Proof.
  apply List.Forall_forall. intros e He.
  apply in_flat_map in He as (tab & Htab & He). unfold localeEntries in He.
  destruct (findMenuByPath (tab_path tab) menus) as [menu|] eqn:Hfind; [|destruct He].
  destruct (negb _); [|destruct He].
  destruct He as [<- | []]. cbn. repeat split; auto. apply in_map, Htab.
Qed.

Lemma localeEntries_pending (l : list Tab) :
  titlesPending t menus (List.map entryPath (List.flat_map (localeEntries t menus) l)) l.
Proof.
  intros tab menu Hin Hfind.
  destruct (String.eqb (tab_title tab) (getMenuTitle t menu)) eqn:E.
  - left. apply String.eqb_eq, E.
  - right. apply in_map_iff. exists (tab, menu, getMenuTitle t menu).
    split; [reflexivity|]. apply in_flat_map. exists tab. split; [exact Hin|].
    unfold localeEntries. rewrite Hfind, E. left. reflexivity.
Qed.

Lemma onLocaleChanged_result (st : SyncState) :
  Forall tabAddressed (tabs st) ->
  let st' := onLocaleChanged menuClosable t menus st in
  List.map tab_id (tabs st') = List.map tab_id (tabs st) /\
  List.map tab_path (tabs st') = List.map tab_path (tabs st) /\
  titlesPending t menus [] (tabs st').
Proof.
  intros Haddr. cbn zeta. unfold onLocaleChanged.
  destruct (0 <? length menus)%nat eqn:Hmenus; cbn [andb].
  2:{ repeat split. intros tab menu _ Hfind.
      destruct menus; [discriminate Hfind | discriminate Hmenus]. }
  destruct (0 <? length (tabs st))%nat eqn:Htabs.
  2:{ repeat split. intros tab menu Hin _.
      destruct (tabs st); [destruct Hin | discriminate Htabs]. }
  rewrite localeQueue_entries. cbn [app].
  apply applyTitleUpdates_retitles;
    [apply localeEntries_sound | exact Haddr | apply localeEntries_pending].
Qed.

(** X19: After the locale effect every tab whose path resolves in the tree
    carries the freshly resolved title, and the tabs are the same ones:
    same ids, same paths, same order. *)
Theorem onLocaleChanged_corrects_titles (st : SyncState) :
  Forall tabAddressed (tabs st) ->
  let st' := onLocaleChanged menuClosable t menus st in
  List.map tab_id (tabs st') = List.map tab_id (tabs st) /\
  List.map tab_path (tabs st') = List.map tab_path (tabs st) /\
  (forall tab menu,
     In tab (tabs st') -> findMenuByPath (tab_path tab) menus = Some menu ->
     tab_title tab = getMenuTitle t menu).
Proof.
  intros Haddr. destruct (onLocaleChanged_result st Haddr) as (Hids & Hpaths & Hdone).
  cbn zeta. repeat split; [exact Hids | exact Hpaths |].
  intros tab menu Hin Hfind. destruct (Hdone tab menu Hin Hfind) as [H | []]. exact H.
Qed.

(** X20: On a collection whose ids identify the paths (every id is derived
    from the path, and no tab sits at the literal path [home]), running
    the locale effect on its own result changes nothing, which is what
    keeps it from retriggering itself through the tabs it depends on. *)
Theorem onLocaleChanged_idempotent (st : SyncState) :
  Forall tabAddressed (tabs st) ->
  onLocaleChanged menuClosable t menus (onLocaleChanged menuClosable t menus st) =
  onLocaleChanged menuClosable t menus st.
Proof.
  intros Haddr. destruct (onLocaleChanged_result st Haddr) as (_ & _ & Hdone).
  set (st' := onLocaleChanged menuClosable t menus st) in *.
  unfold onLocaleChanged at 1.
  destruct ((0 <? length menus)%nat && (0 <? length (tabs st'))%nat); [|reflexivity].
  rewrite localeQueue_entries. cbn [app].
  assert (List.flat_map (localeEntries t menus) (tabs st') = []) as ->; [|reflexivity].
  induction (tabs st') as [|tab l IH]; [reflexivity|].
  cbn [List.flat_map].
  rewrite IH by (intros x m Hx; apply Hdone; right; exact Hx).
  unfold localeEntries.
  destruct (findMenuByPath (tab_path tab) menus) as [menu|] eqn:Hfind; [|reflexivity].
  destruct (Hdone tab menu (or_introl eq_refl) Hfind) as [-> | []].
  rewrite String.eqb_refl. reflexivity.
Qed.

End LocaleEffect.

(** ** What the two tab effects leave behind *)

Section TabEffects.

Import TabSync.

Variable menuClosable : Menu -> bool.
Variable t : string -> string.

Lemma removeTab_Forall (P : Tab -> Prop) (id : string) (st : SyncState) :
  Forall P (tabs st) -> Forall P (tabs (removeTab id st)).
Proof.
  intros H. destruct (removeTab_tabs id st) as [-> | ->]; [exact H|].
  apply dropLast_Forall, H.
Qed.

Lemma addTab_Forall_path (P : string -> Prop) (menu : Menu) (st : SyncState) :
  P (menu_path menu) ->
  Forall (fun tab => P (tab_path tab)) (tabs st) ->
  Forall (fun tab => P (tab_path tab)) (tabs (addTab menuClosable menu st)).
Proof.
  intros Hm H. unfold addTab. destruct (existsb _ _); cbn [withTabs tabs].
  - apply List.Forall_forall. intros x Hx. apply in_map_iff in Hx as (y & <- & Hy).
    rewrite List.Forall_forall in H. destruct (hasId _ y); apply (H y Hy).
  - apply List.Forall_app. split; [exact H|]. constructor; [exact Hm | constructor].
Qed.

Section Tree.

Variable menus : list Menu.

Lemma dedup_keeps_resolving (l : list Tab) (acc : DedupAcc) :
  Forall (fun tab => resolves menus tab = true) (tabs acc.2) ->
  Forall (fun e => resolves menus e.1.1 = true /\
                   findMenuByPath (tab_path e.1.1) menus = Some e.1.2) acc.1.2 ->
  let acc' := foldl (dedupStep t menus) acc l in
  Forall (fun tab => resolves menus tab = true) (tabs acc'.2) /\
  Forall (fun e => resolves menus e.1.1 = true /\
                   findMenuByPath (tab_path e.1.1) menus = Some e.1.2) acc'.1.2.
Proof.
  revert acc. induction l as [|tab l IH]; intros [[M U] st] Hst HU; cbn [foldl].
  - split; assumption.
  - cbn [fst snd] in *. apply IH; unfold dedupStep.
    + destruct (String.eqb (tab_path tab) "/dashboard"); [exact Hst|].
      destruct (findMenuByPath (tab_path tab) menus) as [menu|]; [|exact Hst].
      destruct (M !! tab_path tab) as [existing|]; [|exact Hst].
      destruct (_ && _); [apply removeTab_Forall, Hst|].
      destruct (_ && _); apply removeTab_Forall, Hst.
    + destruct (String.eqb (tab_path tab) "/dashboard") eqn:Hd; [exact HU|].
      destruct (findMenuByPath (tab_path tab) menus) as [menu|] eqn:Hfind; [|exact HU].
      destruct (M !! tab_path tab) as [existing|].
      * destruct (_ && _); [exact HU|]. destruct (_ && _); exact HU.
      * cbn [fst snd]. destruct (negb _); [|exact HU].
        apply List.Forall_app. split; [exact HU|]. constructor; [|constructor].
        cbn [fst snd]. split; [|exact Hfind].
        unfold resolves. rewrite Hd, Hfind. cbn [negb andb].
        apply bool_decide_eq_true. eauto.
Qed.

Lemma applyTitleUpdates_keeps_resolving (U : list (Tab * Menu * string)) :
  forall st : SyncState,
    Forall (fun tab => resolves menus tab = true) (tabs st) ->
    Forall (fun e => resolves menus e.1.1 = true /\
                     findMenuByPath (tab_path e.1.1) menus = Some e.1.2) U ->
    Forall (fun tab => resolves menus tab = true)
      (tabs (applyTitleUpdates menuClosable U st)).
Proof.
  unfold applyTitleUpdates.
  induction U as [|[[tab menu] title] U IH]; intros st Hst HU; cbn [foldl]; [exact Hst|].
  apply List.Forall_cons_iff in HU as [[Hres Hfind] HU]. cbn [fst snd] in *.
  apply IH; [|exact HU].
  refine (addTab_Forall_path
            (fun p => resolves menus (mkTab "" p "" false) = true) _ st _ Hst).
  change (menu_path (menuWithTitle menu title)) with (menu_path menu).
  rewrite (findMenuByPath_path _ _ _ Hfind). exact Hres.
Qed.

(** X21: Once a non-empty tree has been reconciled, every tab left resolves in
    it and none is the retired dashboard tab, whatever the collection
    looked like before. *)
Theorem onMenuTreeLoaded_leaves_resolving_tabs (st : SyncState) :
  (0 <? length menus)%nat = true ->
  Forall (fun tab => tab_path tab <> "/dashboard" /\
                     is_Some (findMenuByPath (tab_path tab) menus))
    (tabs (onMenuTreeLoaded menuClosable t menus st)).
Proof.
  intros Hmenus.
  assert (Forall (fun tab => resolves menus tab = true)
            (tabs (onMenuTreeLoaded menuClosable t menus st))) as H.
  { unfold onMenuTreeLoaded. rewrite Hmenus.
    destruct (0 <? length (tabs st))%nat.
    2:{ rewrite pruned_tabs. apply List.Forall_forall. intros x Hx.
        apply filter_In in Hx as [_ Hx]. exact Hx. }
    match goal with
    | |- context [foldl (dedupStep t menus) (∅, [], ?s3) (tabs st)] =>
        pose proof (dedup_keeps_resolving (tabs st) (∅, [], s3)) as Hloop;
        destruct (foldl (dedupStep t menus) (∅, [], s3) (tabs st)) as [[M U] st4]
    end.
    cbn [fst snd] in Hloop. destruct Hloop as [Hst4 HU]; [|constructor|].
    - rewrite prepared_tabs. apply List.Forall_forall. intros x Hx.
      apply in_map_iff in Hx as (y & <- & Hy). apply filter_In in Hy as [_ Hy].
      unfold resolves. rewrite reflag_path. exact Hy.
    - apply applyTitleUpdates_keeps_resolving; assumption. }
  eapply List.Forall_impl; [|exact H].
  intros tab Hres. unfold resolves in Hres.
  apply andb_true_iff in Hres as [Hd Hf]. split.
  - intros Heq. rewrite Heq in Hd. discriminate Hd.
  - apply bool_decide_eq_true in Hf. exact Hf.
Qed.

Hypothesis menuClosable_title :
  forall menu title, menuClosable (menuWithTitle menu title) = menuClosable menu.



End Tree.

(** *** The route-change effect *)

Lemma removeTab_prevPath (id : string) (st : SyncState) :
  prevPathRef (removeTab id st) = prevPathRef st.
Proof.
  unfold removeTab. destruct (lastTab _ _) as [tab|]; [|reflexivity].
  destruct (tab_closable tab); reflexivity.
Qed.

Lemma addTab_prevPath (menu : Menu) (st : SyncState) :
  prevPathRef (addTab menuClosable menu st) = prevPathRef st.
Proof. unfold addTab. destruct (existsb _ _); reflexivity. Qed.

Lemma onNavigate_prevPath (currentPath : string) (menus : list Menu) (st : SyncState) :
  prevPathRef (onNavigate menuClosable currentPath menus st) =
  if isStaticAsset currentPath || isFullscreen currentPath
  then prevPathRef st else currentPath.
Proof.
  unfold onNavigate.
  destruct (isStaticAsset currentPath); [reflexivity|].
  destruct (isFullscreen currentPath); [reflexivity|].
  cbv zeta. cbn [orb].
  match goal with
  | |- context [withPrevPath ?s currentPath] => generalize s; intros st1
  end.
  destruct (String.eqb currentPath "/login" || String.eqb currentPath "/"); [reflexivity|].
  destruct (0 <? length menus)%nat; [|reflexivity].
  destruct (findMenuByPath currentPath menus) as [menu|]; [|reflexivity].
  destruct (negb (hasComponent menu)); [reflexivity|].
  destruct (negb _ && negb _); [apply addTab_prevPath|].
  destruct (bool_decide _); reflexivity.
Qed.

Lemma applyTitleUpdates_prevPath (U : list (Tab * Menu * string)) :
  forall st : SyncState,
    prevPathRef (applyTitleUpdates menuClosable U st) = prevPathRef st.
Proof.
  unfold applyTitleUpdates.
  induction U as [|[[tab menu] title] U IH]; intros st; cbn [foldl]; [reflexivity|].
  rewrite IH. apply addTab_prevPath.
Qed.

Lemma dedup_prevPath (menus : list Menu) (l : list Tab) :
  forall acc : DedupAcc,
    prevPathRef (foldl (dedupStep t menus) acc l).2 = prevPathRef acc.2.
Proof.
  induction l as [|tab l IH]; intros [[M U] st]; cbn [foldl]; [reflexivity|].
  rewrite IH. unfold dedupStep.
  destruct (String.eqb (tab_path tab) "/dashboard"); [reflexivity|].
  destruct (findMenuByPath (tab_path tab) menus) as [menu|]; [|reflexivity].
  destruct (M !! tab_path tab) as [existing|]; [|reflexivity].
  destruct (_ && _); [apply removeTab_prevPath|].
  destruct (_ && _); apply removeTab_prevPath.
Qed.

Lemma evict_prevPath (l : list Tab) :
  forall st : SyncState,
    prevPathRef (foldl (fun s tab =>
                          if String.eqb (tab_path tab) "/dashboard"
                          then forceRemoveTab "/dashboard" s else s) st l) =
    prevPathRef st.
Proof.
  induction l as [|tab l IH]; intros st; cbn [foldl]; [reflexivity|].
  rewrite IH. destruct (String.eqb _ _); reflexivity.
Qed.

Lemma onMenuTreeLoaded_prevPath (menus : list Menu) (st : SyncState) :
  prevPathRef (onMenuTreeLoaded menuClosable t menus st) = prevPathRef st.
Proof.
  unfold onMenuTreeLoaded. destruct (0 <? length menus)%nat; [|reflexivity].
  cbv zeta. destruct (0 <? length (tabs st))%nat.
  - match goal with
    | |- context [foldl (dedupStep t menus) ?a (tabs st)] =>
        pose proof (dedup_prevPath menus (tabs st) a) as Hloop;
        destruct (foldl (dedupStep t menus) a (tabs st)) as [[M U] st4]
    end.
    cbn [fst snd] in Hloop. rewrite applyTitleUpdates_prevPath, Hloop.
    cbn [updateTabsClosable cleanInvalidTabs withTabs prevPathRef].
    apply evict_prevPath.
  - cbn [cleanInvalidTabs withTabs prevPathRef]. apply evict_prevPath.
Qed.

(** X23: The remembered previous path is always the last page the route effect
    handled, and it is never a fullscreen page: the effect leaves before it
    would record one, so the branch that clears such a value has nothing to
    clear once the initial value is not one. *)
Theorem run_remembers_last_page (es : list Trigger) (st : SyncState) :
  prevPathRef (run menuClosable t es st) = lastPage (prevPathRef st) es /\
  (isFullscreen (prevPathRef st) = false ->
   isFullscreen (prevPathRef (run menuClosable t es st)) = false).
Proof.
  assert (forall st, prevPathRef (run menuClosable t es st) = lastPage (prevPathRef st) es)
    as Hlast.
  { clear st. unfold run, lastPage. induction es as [|e es' IH]; intros st; cbn [foldl];
      [reflexivity|].
    rewrite IH. f_equal. destruct e as [tree | currentPath tree]; cbn [handle].
    - apply onMenuTreeLoaded_prevPath.
    - apply onNavigate_prevPath. }
  split; [apply Hlast|]. rewrite Hlast. generalize (prevPathRef st). clear.
  unfold lastPage. induction es as [|e es' IH]; intros p Hp; cbn [foldl]; [exact Hp|].
  apply IH. destruct e as [tree | currentPath tree]; [exact Hp|].
  destruct (isStaticAsset currentPath); [exact Hp|]. cbn [orb].
  destruct (isFullscreen currentPath) eqn:E; [exact Hp | exact E].
Qed.

(** The tabs after the housekeeping on the previous path are a selection
    of the tabs before. *)
Lemma leave_tabs (currentPath : string) (menus : list Menu) (st0 : SyncState) :
  let st1 :=
    if truthy (prevPathRef st0) && negb (String.eqb (prevPathRef st0) currentPath)
    then match findMenuByPath (prevPathRef st0) menus with
         | Some prevMenu =>
             if closeOnLeave prevMenu
             then removeTab (orElse (prevPathRef st0) "home") st0 else st0
         | None => st0
         end
    else st0 in
  tabs st1 = tabs st0 \/
  (tabs st1 = dropLast (tabIdOf (prevPathRef st0)) (tabs st0) /\
   truthy (prevPathRef st0) = true /\ prevPathRef st0 <> currentPath /\
   exists prevMenu, findMenuByPath (prevPathRef st0) menus = Some prevMenu /\
                    closeOnLeave prevMenu = true).
Proof.
  cbn zeta. destruct (truthy (prevPathRef st0)) eqn:Ht; [|left; reflexivity].
  destruct (String.eqb (prevPathRef st0) currentPath) eqn:He; [left; reflexivity|].
  cbn [negb andb].
  destruct (findMenuByPath (prevPathRef st0) menus) as [prevMenu|] eqn:Hf;
    [|left; reflexivity].
  destruct (closeOnLeave prevMenu) eqn:Hc; [|left; reflexivity].
  destruct (removeTab_tabs (orElse (prevPathRef st0) "home") st0) as [H | H];
    [left; exact H|].
  right. split; [exact H|]. split; [reflexivity|]. split.
  - apply String.eqb_neq, He.
  - exists prevMenu. split; [reflexivity | exact Hc].
Qed.

Lemma existsb_dropLast_false (f : Tab -> bool) (id : string) (l : list Tab) :
  existsb f l = false -> existsb f (dropLast id l) = false.
Proof.
  intros H. destruct (existsb f (dropLast id l)) eqn:E; [|reflexivity].
  apply existsb_exists in E as (x & Hx & Hfx). apply dropLast_In in Hx.
  rewrite <- H. symmetry. apply existsb_exists. exists x. split; assumption.
Qed.

(** The shape of the tabs after the route effect: a selection of the
    tabs before, followed by at most the tab of the current path. *)
Lemma onNavigate_tabs (currentPath : string) (menus : list Menu) (st : SyncState) :
  let st' := onNavigate menuClosable currentPath menus st in
  exists kept added,
    tabs st' = kept ++ added /\
    (kept = tabs st \/
     (kept = dropLast (tabIdOf (prevPathRef st)) (tabs st) /\
      isFullscreen (prevPathRef st) = false /\
      truthy (prevPathRef st) = true /\ prevPathRef st <> currentPath /\
      exists prevMenu, findMenuByPath (prevPathRef st) menus = Some prevMenu /\
                       closeOnLeave prevMenu = true)) /\
    (added = [] \/
     exists menu,
       added = [mkTab (tabIdOf currentPath) currentPath (menuTabTitle menu)
                  (menuClosable menu)] /\
       findMenuByPath currentPath menus = Some menu /\
       hasComponent menu = true /\
       isStaticAsset currentPath = false /\ isFullscreen currentPath = false /\
       currentPath <> "/login" /\ currentPath <> "/" /\
       existsb (hasId (tabIdOf currentPath)) (tabs st) = false /\
       pendingRemovedTabId st' <> Some (tabIdOf currentPath)).
Proof.
  cbn zeta. unfold onNavigate.
  destruct (isStaticAsset currentPath) eqn:Hstatic.
  { exists (tabs st), []. rewrite app_nil_r. auto. }
  destruct (isFullscreen currentPath) eqn:Hfull.
  { exists (tabs st), []. rewrite app_nil_r. auto. }
  cbv zeta.
  match goal with
  | |- context [if ?c then withPrevPath st "" else st] =>
      set (reset := c);
      set (st0 := if reset then withPrevPath st "" else st)
  end.
  assert (tabs st0 = tabs st) as Htabs0 by (subst st0; destruct reset; reflexivity).
  assert (pendingRemovedTabId st0 = pendingRemovedTabId st) as Hpend0
    by (subst st0; destruct reset; reflexivity).
  assert (truthy (prevPathRef st0) = true ->
          prevPathRef st0 = prevPathRef st /\ isFullscreen (prevPathRef st) = false)
    as Hprev0.
  { subst st0. destruct reset eqn:Hreset; cbn [withPrevPath prevPathRef].
    - intros H. discriminate H.
    - intros Htruthy. split; [reflexivity|]. subst reset. unfold isFullscreen.
      rewrite Htruthy in Hreset. exact Hreset. }
  pose proof (leave_tabs currentPath menus st0) as Hleave. cbn zeta in Hleave.
  match goal with
  | |- context [withPrevPath ?s currentPath] => set (st1 := s) in *
  end.
  assert (exists kept,
            tabs st1 = kept /\
            (kept = tabs st \/
             (kept = dropLast (tabIdOf (prevPathRef st)) (tabs st) /\
              isFullscreen (prevPathRef st) = false /\
              truthy (prevPathRef st) = true /\ prevPathRef st <> currentPath /\
              exists prevMenu, findMenuByPath (prevPathRef st) menus = Some prevMenu /\
                               closeOnLeave prevMenu = true))) as (kept & Hkept & Hsel).
  { exists (tabs st1). split; [reflexivity|].
    destruct Hleave as [H | (H & Htruthy & Hne & Hmenu)].
    - left. rewrite H. exact Htabs0.
    - right. destruct (Hprev0 Htruthy) as [Heq Hnf].
      rewrite H, Htabs0, Heq. rewrite Heq in Htruthy, Hne, Hmenu. auto. }
  assert (existsb (hasId (tabIdOf currentPath)) (tabs st) = false ->
          existsb (hasId (tabIdOf currentPath)) (tabs st1) = false) as Habsent.
  { intros Hex. rewrite Hkept. destruct Hsel as [-> | [-> _]]; [exact Hex|].
    apply existsb_dropLast_false, Hex. }
  clearbody st1. clear Hleave.
  exists kept.
  destruct (String.eqb currentPath "/login" || String.eqb currentPath "/") eqn:Hspecial.
  { exists []. rewrite app_nil_r. cbn [withPrevPath tabs]. auto. }
  apply orb_false_iff in Hspecial as [Hlogin Hroot].
  apply String.eqb_neq in Hlogin, Hroot.
  destruct (0 <? length menus)%nat.
  2:{ exists []. rewrite app_nil_r. cbn [withPrevPath tabs]. auto. }
  destruct (findMenuByPath currentPath menus) as [menu|] eqn:Hfind.
  2:{ exists []. rewrite app_nil_r. cbn [withPrevPath tabs]. auto. }
  destruct (hasComponent menu) eqn:Hcomp; cbn [negb].
  2:{ exists []. rewrite app_nil_r. cbn [withPrevPath tabs]. auto. }
  fold (tabIdOf currentPath).
  destruct (existsb (hasId (tabIdOf currentPath)) (tabs st)) eqn:Hex; cbn [negb andb].
  { exists []. rewrite app_nil_r.
    destruct (bool_decide _); cbn [consumePendingRemoved withPrevPath tabs]; auto. }
  destruct (bool_decide _) eqn:Hpending; cbn [negb].
  { exists []. rewrite app_nil_r. cbn [consumePendingRemoved withPrevPath tabs]. auto. }
  apply bool_decide_eq_false in Hpending.
  pose proof (findMenuByPath_path _ _ _ Hfind) as Hpath.
  exists [mkTab (tabIdOf currentPath) currentPath (menuTabTitle menu) (menuClosable menu)].
  unfold addTab. rewrite Hpath. cbn [withPrevPath tabs].
  rewrite (Habsent eq_refl). cbn [withTabs tabs pendingRemovedTabId].
  rewrite Hkept. split; [reflexivity|]. split; [exact Hsel|]. right.
  exists menu. repeat split; try assumption; try reflexivity.
Qed.

(** X24: The route effect opens at most one tab, the one of the current path,
    and only for a page of the tree that has a component, is no static
    asset, fullscreen page, login or root, has no tab yet and was not
    just closed. *)
Theorem onNavigate_opens_only_current (currentPath : string) (menus : list Menu)
    (st : SyncState) (tab : Tab) :
  In tab (tabs (onNavigate menuClosable currentPath menus st)) ->
  ~ In tab (tabs st) ->
  tab_id tab = tabIdOf currentPath /\ tab_path tab = currentPath /\
  isStaticAsset currentPath = false /\ isFullscreen currentPath = false /\
  currentPath <> "/login" /\ currentPath <> "/" /\
  existsb (hasId (tabIdOf currentPath)) (tabs st) = false /\
  exists menu, findMenuByPath currentPath menus = Some menu /\
               hasComponent menu = true.
Proof.
  intros Hin Hnew.
  destruct (onNavigate_tabs currentPath menus st) as (kept & added & Htabs & Hsel & Hadd).
  rewrite Htabs in Hin. apply in_app_or in Hin as [Hin | Hin].
  - exfalso. apply Hnew. destruct Hsel as [-> | [-> _]]; [exact Hin|].
    apply dropLast_In in Hin. exact Hin.
  - destruct Hadd as [-> | (menu & -> & Hfind & Hcomp & Hs & Hf & Hl & Hr & Hex & _)];
      [destruct Hin|].
    destruct Hin as [<- | []]. cbn [tab_id tab_path]. eauto 12.
Qed.

(** X25: The route effect closes nothing but tabs with the id of the page just
    left, and only when that page is another one than the current and its
    menu asks for closing on leave. *)
Theorem onNavigate_closes_only_previous (currentPath : string) (menus : list Menu)
    (st : SyncState) (tab : Tab) :
  In tab (tabs st) ->
  ~ In tab (tabs (onNavigate menuClosable currentPath menus st)) ->
  tab_id tab = tabIdOf (prevPathRef st) /\
  prevPathRef st <> currentPath /\ prevPathRef st <> "" /\
  exists prevMenu, findMenuByPath (prevPathRef st) menus = Some prevMenu /\
                   closeOnLeave prevMenu = true.
Proof.
  intros Hin Hgone.
  destruct (onNavigate_tabs currentPath menus st) as (kept & added & Htabs & Hsel & _).
  rewrite Htabs in Hgone.
  destruct Hsel as [-> | (-> & _ & Htruthy & Hne & Hmenu)].
  - exfalso. apply Hgone, in_or_app. left. exact Hin.
  - split; [|split; [exact Hne|split; [|exact Hmenu]]].
    + destruct (hasId (tabIdOf (prevPathRef st)) tab) eqn:Hid.
      * apply String.eqb_eq, Hid.
      * exfalso. apply Hgone, in_or_app. left.
        apply dropLast_keeps; assumption.
    + intros Heq. rewrite Heq in Htruthy. discriminate Htruthy.
Qed.

Lemma lastTab_single (id : string) (l : list Tab) (x : Tab) :
  List.filter (hasId id) l = [x] -> lastTab id l = Some x.
Proof.
  induction l as [|y rest IH]; cbn [List.filter lastTab]; [discriminate|].
  destruct (hasId id y) eqn:Hy.
  - intros [= -> Hrest].
    assert (existsb (hasId id) rest = false) as Hnone.
    { destruct (existsb (hasId id) rest) eqn:E; [|reflexivity].
      apply existsb_exists in E as (z & Hz & Hid).
      assert (In z (List.filter (hasId id) rest)) as Hin
        by (apply filter_In; split; assumption).
      rewrite Hrest in Hin. destruct Hin. }
    destruct (lastTab id rest) as [found|] eqn:Hlast; [|reflexivity].
    apply lastTab_Some in Hlast as [Hin Hid].
    assert (existsb (hasId id) rest = true) as Htrue
      by (apply existsb_exists; exists found; split; assumption).
    congruence.
  - intros Hrest. rewrite (IH Hrest). reflexivity.
Qed.

Lemma countId_filter (id : string) (l : list Tab) :
  countId id l = length (List.filter (hasId id) l).
Proof.
  induction l as [|y rest IH]; cbn [countId List.filter]; [reflexivity|].
  destruct (hasId id y); cbn [length]; rewrite IH; reflexivity.
Qed.






End TabEffects.

(** ** How a top-level menu is rendered *)

Section GroupRendering.

Context {Icon : Type}.
Variable getIconByName : option string -> Icon.
Variable t : string -> string.

Lemma convert_no_children (menu : Menu) :
  match item_children (convertMenuToMenuItem getIconByName t menu) with
  | Some (_ :: _) => false
  | _ => true
  end = negb (hasChildren menu).
Proof.
  destruct menu as [i p n h c ch mt]. unfold hasChildren. cbn.
  destruct ch as [[|c0 cs]|]; reflexivity.
Qed.

(** The render condition on the group of one menu. *)
Lemma groupOfMenu_plain (menu : Menu) :
  rendersAsPlainItem (groupOfMenu getIconByName t menu) =
  negb (alwaysDirectory (menu_id menu)) &&
  (if hasChildren menu then
     match List.filter (fun child => negb (menu_hidden child))
             (default [] (menu_children menu)) with
     | [child] => negb (hasChildren child)
     | _ => false
     end
   else true).
Proof.
  unfold rendersAsPlainItem, alwaysDirectory, groupOfMenu.
  cbn [group_id group_items]. rewrite !negb_orb, <- !andb_assoc.
  f_equal. f_equal. f_equal.
  destruct (hasChildren menu) eqn:Hleaf.
  - destruct (List.filter _ _) as [|child [|child' rest]]; cbn [List.map length Nat.eqb andb];
      [reflexivity | apply convert_no_children | reflexivity].
  - cbn [length Nat.eqb andb]. rewrite convert_no_children, Hleaf. reflexivity.
Qed.

(** X27: Every group of the sidebar stems from a top-level menu that is not
    hidden, and it is rendered as a plain entry, without a group header,
    exactly when its id is none of the three fixed directories and the
    menu either has no children (an empty list counts as none) or has
    exactly one child that is not hidden, which has no children itself.
    A top-level menu without children that is not hidden always has its
    group in the sidebar. *)
Theorem sidebar_plain_entries (menus : list Menu) :
  (forall g, In g (convertMenusToGroups getIconByName t menus) ->
     exists menu,
       In menu menus /\ menu_hidden menu = false /\
       g = groupOfMenu getIconByName t menu /\
       rendersAsPlainItem g =
       negb (alwaysDirectory (menu_id menu)) &&
       (if hasChildren menu then
          match List.filter (fun child => negb (menu_hidden child))
                  (default [] (menu_children menu)) with
          | [child] => negb (hasChildren child)
          | _ => false
          end
        else true)) /\
  (forall menu, In menu menus -> menu_hidden menu = false ->
     hasChildren menu = false ->
     In (groupOfMenu getIconByName t menu)
        (convertMenusToGroups getIconByName t menus) /\
     rendersAsPlainItem (groupOfMenu getIconByName t menu) =
     negb (alwaysDirectory (menu_id menu))).
Proof.
  split.
  - intros g Hg.
    apply in_convertMenusToGroups in Hg as (menu & Hin & Hhid & -> & _).
    exists menu. repeat split; [exact Hin | exact Hhid |]. apply groupOfMenu_plain.
  - intros menu Hin Hhid Hleaf. split.
    + apply in_convertMenusToGroups. exists menu. repeat split; [exact Hin | exact Hhid |].
      unfold groupOfMenu. cbn [group_items]. rewrite Hleaf. discriminate.
    + rewrite groupOfMenu_plain, Hleaf. apply andb_true_r.
Qed.

End GroupRendering.

(** ** The further properties on sample inputs *)

Lemma ticket_route_single_origin_witness :
  isPathActive ticketFromWorkorder "/daily-workorders" "/ticket/9" =
  String.eqb "/daily-workorders" "/ticket/9" ||
  String.eqb "/daily-workorders" (ticketOriginPath ticketFromWorkorder).
Proof.
  apply (ticket_route_single_origin ticketFromWorkorder "/daily-workorders" "/ticket/9").
  reflexivity.
Defined.

Lemma k8s_descendants_active_witness :
  isPathActive plainTicketPage "/k8s/pods" ("/k8s/pods" +:+ "/" +:+ "default/web-1") =
  (0 <? length (pathParts "default/web-1"))%nat.
Proof.
  apply (k8s_descendants_active plainTicketPage "/k8s/pods" "default/web-1").
  reflexivity.
Defined.

Lemma getMenuTitle_from_name_never_blank_witness :
  getMenuTitle (fun _ => "") sampleLeaf <> "".
Proof.
  apply (proj2 (getMenuTitle_from_name_never_blank (fun _ => "") sampleLeaf sampleLeaf)).
  discriminate.
Defined.

Lemma expansionEffect_opens_active_witness :
  groupIsOpen
    (expansionEffect plainTicketPage
       (convertMenusToGroups (fun _ => tt) (fun _ => "") sampleTree)
       {[ "menu-tickets" := false ]})
    "menu-tickets" = true.
Proof.
  apply (proj1 (expansionEffect_opens_active plainTicketPage
                  (convertMenusToGroups (fun _ => tt) (fun _ => "") sampleTree)
                  {[ "menu-tickets" := false ]})
           (groupOfMenu (fun _ => tt) (fun _ => "")
              (mkMenu "menu-tickets" "" "tickets" false None
                 (Some [mkMenu "menu-my" "/my-tickets" "myTickets" false (Some "My") None None;
                        mkMenu "menu-all" "/all-tickets" "allTickets" true (Some "All") None None])
                 None))).
  - right. left. reflexivity.
  - reflexivity.
Defined.


Lemma handleGroupToggle_rendering_witness :
  groupIsOpen ∅ "constructor" = true /\
  groupIsOpen (handleGroupToggle "constructor" ∅) "constructor" =
    negb (inherited "constructor").
Proof.
  apply (proj1 (proj2 (handleGroupToggle_rendering "constructor" ∅))).
  reflexivity.
Defined.

Lemma fetchMenus_cache_round_trip_witness :
  exists w1,
    MenuCache.fetchMenus sampleParse sampleStringify false (onlineWorld 5000) =
      (MenuCache.Return tt, w1) /\
    forall w2,
      MenuCache.storage w2 = MenuCache.storage w1 ->
      MenuCache.storageReadable w2 = true ->
      (MenuCache.clock w2 - MenuCache.clock w1 < MenuCache.cacheExpiry)%Z ->
      exists w3,
        MenuCache.fetchMenus sampleParse sampleStringify false w2 =
          (MenuCache.Return tt, w3) /\
        MenuCache.menus w3 = sampleMenus /\
        MenuCache.remoteCalls w3 = MenuCache.remoteCalls w2.
Proof.
  apply (fetchMenus_cache_round_trip sampleParse sampleStringify false
           (onlineWorld 5000) sampleMenus);
    [reflexivity | reflexivity | reflexivity | vm_compute; discriminate
    | reflexivity | reflexivity].
Defined.

Lemma fetchMenus_response_without_data_witness :
  exists w',
    MenuCache.fetchMenus sampleParse sampleStringify false
      (MenuCache.mkWorld
         {[ MenuCache.cacheKey := "{}"; MenuCache.cacheTimestampKey := "1000" ]}
         true true 5000 40 (MenuCache.Resolves None) 0 sampleMenus ∅ false) =
      (MenuCache.Return tt, w') /\
    MenuCache.menus w' = OtherValue "{}" /\ MenuCache.openGroups w' = ∅ /\
    MenuCache.storage w' =
      {[ MenuCache.cacheKey := "{}"; MenuCache.cacheTimestampKey := "1000" ]}.
Proof.
  destruct (fetchMenus_response_without_data sampleParse sampleStringify false
              (MenuCache.mkWorld
                 {[ MenuCache.cacheKey := "{}"; MenuCache.cacheTimestampKey := "1000" ]}
                 true true 5000 40 (MenuCache.Resolves None) 0 sampleMenus ∅ false))
    as (w' & Hrun & Hmenus & Hopen & Hstorage); [reflexivity | reflexivity |].
  exists w'. split; [exact Hrun|]. split; [exact Hmenus|].
  split; [exact Hopen | exact Hstorage].
Defined.

Lemma fetchMenus_unwritable_storage_witness :
  exists w',
    MenuCache.fetchMenus sampleParse sampleStringify false
      (MenuCache.mkWorld ∅ true false 5000 40 (MenuCache.Resolves (Some sampleMenus)) 0
         [] ∅ true) = (MenuCache.Return tt, w') /\
    MenuCache.menus w' = sampleMenus /\
    MenuCache.openGroups w' = MenuCache.initialOpenState sampleMenus /\
    MenuCache.storage w' = ∅.
Proof.
  apply (fetchMenus_unwritable_storage sampleParse sampleStringify false
           (MenuCache.mkWorld ∅ true false 5000 40
              (MenuCache.Resolves (Some sampleMenus)) 0 [] ∅ true) sampleMenus);
    reflexivity.
Defined.

Lemma logout_then_load_witness :
  exists w',
    MenuCache.fetchMenus sampleParse sampleStringify false
      (MenuCache.mkWorld (stores_session (handleLogout signedInStores)) true true
         5000 40 MenuCache.Rejects 0 sampleMenus ∅ false) = (MenuCache.Return tt, w') /\
    MenuCache.remoteCalls w' = 1%nat /\
    (MenuCache.Rejects = MenuCache.Rejects -> MenuCache.menus w' = []).
Proof.
  apply (logout_then_load sampleParse sampleStringify signedInStores false
           (MenuCache.mkWorld (stores_session (handleLogout signedInStores)) true true
              5000 40 MenuCache.Rejects 0 sampleMenus ∅ false)).
  reflexivity.
Defined.

Lemma shell_keeps_one_tab_per_path_witness :
  onePerPath
    (TabSync.tabs
       (Shell.shell_sync
          (Shell.reactAll (fun _ => true) (fun _ => "")
             [Shell.Clicked "/hosts" sampleMenus;
              Shell.Routed "/hosts" sampleMenus;
              Shell.LocaleChanged sampleMenus;
              Shell.Reconciled sampleMenus;
              Shell.MenusLoadedEvent sampleMenus]
             clickShell))).
Proof.
  apply shell_keeps_one_tab_per_path; [constructor | constructor].
Defined.


Lemma onLocaleChanged_corrects_titles_witness :
  List.map TabSync.tab_id
    (TabSync.tabs (Shell.onLocaleChanged (fun _ => true) (fun _ => "") sampleMenus
                     staleTitleShell)) =
    List.map TabSync.tab_id (TabSync.tabs staleTitleShell) /\
  List.map TabSync.tab_path
    (TabSync.tabs (Shell.onLocaleChanged (fun _ => true) (fun _ => "") sampleMenus
                     staleTitleShell)) =
    List.map TabSync.tab_path (TabSync.tabs staleTitleShell) /\
  (forall tab menu,
     In tab (TabSync.tabs (Shell.onLocaleChanged (fun _ => true) (fun _ => "")
                             sampleMenus staleTitleShell)) ->
     findMenuByPath (TabSync.tab_path tab) sampleMenus = Some menu ->
     TabSync.tab_title tab = getMenuTitle (fun _ => "") menu).
Proof.
  apply (onLocaleChanged_corrects_titles (fun _ => true) (fun _ => "") sampleMenus
           staleTitleShell).
  repeat constructor; discriminate.
Defined.

Lemma onLocaleChanged_idempotent_witness :
  Shell.onLocaleChanged (fun _ => true) (fun _ => "") sampleMenus
    (Shell.onLocaleChanged (fun _ => true) (fun _ => "") sampleMenus staleTitleShell) =
  Shell.onLocaleChanged (fun _ => true) (fun _ => "") sampleMenus staleTitleShell.
Proof.
  apply onLocaleChanged_idempotent.
  repeat constructor; discriminate.
Defined.

Lemma onMenuTreeLoaded_leaves_resolving_tabs_witness :
  Forall (fun tab => TabSync.tab_path tab <> "/dashboard" /\
                     is_Some (findMenuByPath (TabSync.tab_path tab) sampleMenus))
    (TabSync.tabs (TabSync.onMenuTreeLoaded (fun _ => true) (fun _ => "") sampleMenus
                     staleShell)).
Proof.
  apply onMenuTreeLoaded_leaves_resolving_tabs.
  reflexivity.
Defined.


Lemma run_remembers_last_page_witness :
  TabSync.isFullscreen
    (TabSync.prevPathRef
       (TabSync.run (fun _ => true) (fun _ => "")
          [TabSync.Navigate "/hosts" sampleMenus;
           TabSync.Navigate "/terminal" sampleMenus]
          freshShell)) = false.
Proof.
  apply (proj2 (run_remembers_last_page (fun _ => true) (fun _ => "")
                  [TabSync.Navigate "/hosts" sampleMenus;
                   TabSync.Navigate "/terminal" sampleMenus]
                  freshShell)).
  reflexivity.
Defined.

Lemma onNavigate_opens_only_current_witness :
  TabSync.tab_id (TabSync.mkTab "/hosts" "/hosts" "hosts" true) = TabSync.tabIdOf "/hosts" /\
  TabSync.tab_path (TabSync.mkTab "/hosts" "/hosts" "hosts" true) = "/hosts" /\
  TabSync.isStaticAsset "/hosts" = false /\ TabSync.isFullscreen "/hosts" = false /\
  "/hosts" <> "/login" /\ "/hosts" <> "/" /\
  existsb (TabSync.hasId (TabSync.tabIdOf "/hosts")) (TabSync.tabs freshShell) = false /\
  exists menu, findMenuByPath "/hosts" sampleMenus = Some menu /\
               hasComponent menu = true.
Proof.
  apply (onNavigate_opens_only_current (fun _ => true) "/hosts" sampleMenus freshShell
           (TabSync.mkTab "/hosts" "/hosts" "hosts" true)).
  - left. reflexivity.
  - simpl. tauto.
Defined.

Lemma onNavigate_closes_only_previous_witness :
  TabSync.tab_id (TabSync.mkTab "/fill-ticket-form" "/fill-ticket-form" "fillForm" true) =
    TabSync.tabIdOf (TabSync.prevPathRef leavingShell) /\
  TabSync.prevPathRef leavingShell <> "/hosts" /\
  TabSync.prevPathRef leavingShell <> "" /\
  exists prevMenu,
    findMenuByPath (TabSync.prevPathRef leavingShell) closingMenus = Some prevMenu /\
    TabSync.closeOnLeave prevMenu = true.
Proof.
  apply (onNavigate_closes_only_previous (fun _ => true) "/hosts" closingMenus leavingShell
           (TabSync.mkTab "/fill-ticket-form" "/fill-ticket-form" "fillForm" true)).
  - left. reflexivity.
  - vm_compute. intros [H | []]. discriminate H.
Defined.


Lemma sidebar_plain_entries_witness :
  In (groupOfMenu (fun _ => tt) (fun _ => "") sampleLeaf)
     (convertMenusToGroups (fun _ => tt) (fun _ => "") sampleTree) /\
  rendersAsPlainItem (groupOfMenu (fun _ => tt) (fun _ => "") sampleLeaf) =
  negb (alwaysDirectory (menu_id sampleLeaf)).
Proof.
  apply (proj2 (sidebar_plain_entries (fun _ => tt) (fun _ => "") sampleTree) sampleLeaf).
  - left. reflexivity.
  - reflexivity.
  - reflexivity.
Defined.
